(** * The asynchronous task consumer of lirity (package async)

    A shallow embedding of [taskConsumer.handle], [taskConsumer.handleMessage]
    and [taskConsumer.Subscribe], and the properties of the acknowledgment
    protocol they implement; then the error codes of package e and the
    machine id of package id.

    Calls into collaborators (codec, JSON decoder, validator, dispatcher,
    payload pool, broker) are recorded as events of a trace, in program
    order.  Collaborators are interfaces in the source; here they are the
    fields of records, and every call of one of them returns (a value or a Go
    [error]).  Handlers that panic or never return are the subject of
    [handle_with] and [Subscribe_with], which extend [handle] and
    [Subscribe] to them. *)

From Stdlib Require Import String List Bool Arith Lia.
From Stdlib Require Import ZArith DecimalString Permutation.
From ExtLib Require Import Structures.Monad Structures.MonadState.
From ExtLib Require Import Data.Monads.StateMonad.
Import ListNotations.
Import MonadNotation.
Local Open Scope string_scope.
Local Open Scope list_scope.
Local Open Scope monad_scope.

(** ** Data *)

(** Go's [error] interface value; [None : option error] is [nil]. *)
Definition error := string.

(** A call returning [(value, error)]. *)
Inductive result (A : Type) : Type :=
| Ok (a : A)
| Err (e : error).
Arguments Ok {A} a.
Arguments Err {A} e.

(** [amqp.Delivery]: the fields of the broker's struct that identify a
    message and carry its body. *)
Record Delivery : Type := mkDelivery {
  MessageId : string;
  DeliveryTag : nat;
  Body : string
}.

(** The zero value of [amqp.Delivery], which a receive on a closed channel
    yields. *)
Definition zeroDelivery : Delivery :=
  {| MessageId := ""; DeliveryTag := 0; Body := "" |}.

(** What [marshal.Unmarshal] produces: [msgStruct.UUID], [msgStruct.Payload]. *)
Record Message : Type := mkMessage {
  UUID : string;
  Payload : string
}.

(** [context.Context] as the consumer uses it: whether [ctx.Done()] is closed,
    and the fields of the logger it carries. *)
Record Context : Type := mkContext {
  Done : bool;
  Fields : list (string * string)
}.

(** [logger.With(ctx, logger.From(ctx).With(zap.String(key, value)))] *)
Definition With (ctx : Context) (key value : string) : Context :=
  {| Done := Done ctx; Fields := Fields ctx ++ [(key, value)] |}.

(** [amqp.Table] argument of [Consume]; the consumer only ever passes [nil]. *)
Definition Table := list (string * string).

(** [<-chan amqp.Delivery]: the deliveries buffered in the channel and whether
    the sender has closed it. *)
Record Chan : Type := mkChan {
  pending : list Delivery;
  closed : bool
}.

Section Model.

(** The Task Parameter struct that [Get] hands out and the handlers receive;
    its declaration is in another file of the package. *)
Context {Param : Type}.

(** Calls observed on the collaborators, in program order. *)
Inductive event : Type :=
| LogError (msg : string) (err : error)
| LogDebug (body : string)
| EvGet
| EvPut (param : Param)
| EvRun (param : Param)
| EvReject (d : Delivery) (requeue : bool)
| EvAck (d : Delivery) (multiple : bool)
| EvConsume (queue consumer : string)
            (autoAck exclusive noLocal noWait : bool) (args : option Table)
| EvGo (ctx : Context) (d : Delivery).

(** The struct [taskConsumer]: its four collaborators, each an interface in
    the source.  (The field [pool] shows as the [EvGo] events.) *)
Record taskConsumer : Type := mkTaskConsumer {
  manager : Context -> Param -> option error;
  marshal : Delivery -> result Message;
  handler : string -> Param -> result Param;
  validator : Param -> option error
}.

(** What lies outside the consumer: the object the payload pool hands out
    on [Get()], and what the broker answers to [d.Ack] and [d.Reject]. *)
Record Runtime : Type := mkRuntime {
  pool_object : Param;
  ack_answer : Delivery -> bool -> option error;
  reject_answer : Delivery -> bool -> option error
}.

(** Effectful code threads the trace. *)
Definition M : Type -> Type := state (list event).

Definition emit (e : event) : M unit :=
  modify (fun tr => tr ++ [e]) ;; ret tt.

Definition Get (rt : Runtime) : M Param :=
  emit EvGet ;; ret (pool_object rt).

Definition Put (p : Param) : M unit := emit (EvPut p).

Definition Reject (rt : Runtime) (d : Delivery) (requeue : bool)
  : M (option error) :=
  emit (EvReject d requeue) ;; ret (reject_answer rt d requeue).

Definition Ack (rt : Runtime) (d : Delivery) (multiple : bool)
  : M (option error) :=
  emit (EvAck d multiple) ;; ret (ack_answer rt d multiple).

Definition Run (t : taskConsumer) (ctx : Context) (p : Param)
  : M (option error) :=
  emit (EvRun p) ;; ret (manager t ctx p).

(** [if err = d.Reject(false); err != nil { return err }; return nil] *)
Definition reject_and_return (rt : Runtime) (d : Delivery)
  : M (option error) :=
  err <- Reject rt d false ;;
  match err with
  | Some e => ret (Some e)
  | None => ret None
  end.

(** [func (t *taskConsumer) handle(ctx context.Context, d amqp.Delivery) error] *)
Definition handle (rt : Runtime) (t : taskConsumer) (ctx : Context)
           (d : Delivery) : M (option error) :=
  match marshal t d with
  | Err err =>
      emit (LogError "unmarshal failed" err) ;;
      reject_and_return rt d
  | Ok msgStruct =>
      let ctx := With ctx "uuid" (UUID msgStruct) in
      emit (LogDebug (Payload msgStruct)) ;;
      param <- Get rt ;;
      match handler t (Payload msgStruct) param with
      | Err err =>
          emit (LogError "unmarshal failed" err) ;;
          reject_and_return rt d
      | Ok param =>
          match validator t param with
          | Some err =>
              emit (LogError "validate struct failed" err) ;;
              reject_and_return rt d
          | None =>
              err <- Run t ctx param ;;
              Put param ;;
              match err with
              | Some err =>
                  emit (LogError "run failed" err) ;;
                  reject_and_return rt d
              | None => Ack rt d false
              end
          end
      end
  end.

(** The trace and the returned error of one call of [handle]. *)
Definition handle_trace rt t ctx d : list event :=
  snd (runState (handle rt t ctx d) []).

Definition handle_result rt t ctx d : option error :=
  fst (runState (handle rt t ctx d) []).

(** The function [handleMessage] hands to the pool for a delivery [v]:
    [if err := t.handle(ctx, v); err != nil { logger...Error("handle failed") }] *)
Definition task (rt : Runtime) (t : taskConsumer) (ctx : Context)
           (v : Delivery) : M unit :=
  err <- handle rt t ctx v ;;
  match err with
  | Some err => emit (LogError "handle failed" err)
  | None => ret tt
  end.

Definition task_trace rt t ctx v : list event :=
  snd (runState (task rt t ctx v) []).

Definition is_ack (e : event) : bool :=
  match e with EvAck _ _ => true | _ => false end.

Definition is_reject (e : event) : bool :=
  match e with EvReject _ _ => true | _ => false end.

Definition is_terminal (e : event) : bool := is_ack e || is_reject e.

Definition is_run (e : event) : bool :=
  match e with EvRun _ => true | _ => false end.

Definition is_get (e : event) : bool :=
  match e with EvGet => true | _ => false end.

Definition is_put (e : event) : bool :=
  match e with EvPut _ => true | _ => false end.

Definition is_consume (e : event) : bool :=
  match e with EvConsume _ _ _ _ _ _ _ => true | _ => false end.

Definition is_go (e : event) : bool :=
  match e with EvGo _ _ => true | _ => false end.

(** ** The two loops

    The loops observe the outside world only in their [select] statements.
    A [round] is one evaluation of a [select]: what the environment did since
    the previous one, and which case the Go runtime takes when more than one
    can proceed. *)

Inductive env_action : Type :=
| Cancel
| Deliver (d : Delivery)
| CloseStream.

Inductive select_case : Type :=
| CaseDone
| CaseRecv.

Record round : Type := mkRound {
  env : list env_action;
  choice : select_case
}.

Definition cancel (ctx : Context) : Context :=
  {| Done := true; Fields := Fields ctx |}.

Definition act_ctx (ctx : Context) (a : env_action) : Context :=
  match a with
  | Cancel => cancel ctx
  | _ => ctx
  end.

(** The broker sends on the channel until it closes it. *)
Definition act_chan (ch : Chan) (a : env_action) : Chan :=
  match a with
  | Deliver d =>
      if closed ch then ch
      else {| pending := pending ch ++ [d]; closed := false |}
  | CloseStream => {| pending := pending ch; closed := true |}
  | Cancel => ch
  end.

Definition env_ctx (acts : list env_action) (ctx : Context) : Context :=
  fold_left act_ctx acts ctx.

Definition env_chan (acts : list env_action) (ch : Chan) : Chan :=
  fold_left act_chan acts ch.

(** [v := <-deliveries]: the oldest buffered delivery; on a closed and
    drained channel the zero value, without blocking; [None] when the receive
    cannot proceed. *)
Definition recv (ch : Chan) : option (Delivery * Chan) :=
  match pending ch with
  | d :: rest => Some (d, {| pending := rest; closed := closed ch |})
  | [] => if closed ch then Some (zeroDelivery, ch) else None
  end.

Inductive loop_status : Type :=
| Returned
| Running.

(** [func (t *taskConsumer) handleMessage(ctx, deliveries)]: status, events,
    the context as last observed, and the rounds left over. *)
Fixpoint handleMessage (ctx : Context) (deliveries : Chan)
         (script : list round)
  : loop_status * list event * Context * list round :=
  match script with
  | [] => (Running, [], ctx, [])
  | r :: rest =>
      let ctx := env_ctx (env r) ctx in
      let deliveries := env_chan (env r) deliveries in
      match Done ctx, recv deliveries, choice r with
      | true, None, _ => (Returned, [], ctx, rest)
      | true, Some _, CaseDone => (Returned, [], ctx, rest)
      | _, Some (v, deliveries'), _ =>
          let '(st, evs, ctx', rest') := handleMessage ctx deliveries' rest in
          (st, EvGo ctx v :: evs, ctx', rest')
      | false, None, _ => handleMessage ctx deliveries rest
      end
  end.

(** The interface [Channel]: what the broker answers to the [calls]-th call
    of [Consume] for a queue. *)
Record Channel : Type := mkChannel {
  Consume : nat -> string -> result Chan
}.

(** The function [Subscribe] hands to the pool: the outer [for] loop. *)
Fixpoint Subscribe_loop (fuel : nat) (channel : Channel) (queueName : string)
         (calls : nat) (ctx : Context) (script : list round)
  : loop_status * list event :=
  match fuel, script with
  | 0, _ => (Running, [])
  | _, [] => (Running, [])
  | S fuel, r :: rest =>
      let ctx := env_ctx (env r) ctx in
      if Done ctx then (Returned, [])
      else
        let call :=
          EvConsume queueName ("consumer." ++ queueName)%string
                    false false false false None in
        match Consume channel calls queueName with
        | Err err =>
            let '(st, evs) :=
              Subscribe_loop fuel channel queueName (S calls) ctx rest in
            (st, call :: LogError "consumer failed" err :: evs)
        | Ok deliveries =>
            match handleMessage ctx deliveries rest with
            | (Running, evs, _, _) => (Running, call :: evs)
            | (Returned, evs, ctx', rest') =>
                let '(st, evs') :=
                  Subscribe_loop fuel channel queueName (S calls) ctx' rest' in
                (st, call :: evs ++ evs')
            end
        end
  end.

(** The deliveries handed to the pool, with the context of each. *)
Fixpoint submitted (evs : list event) : list (Context * Delivery) :=
  match evs with
  | [] => []
  | EvGo ctx d :: evs => (ctx, d) :: submitted evs
  | _ :: evs => submitted evs
  end.

(** Modelled from the spec: [routine.Pool.Wait], of a package that is not
    part of these sources, "blocks until all previously scheduled functions
    (including those scheduled by other already-running functions) have
    returned".  The functions scheduled here are the loop and one call of
    [handle] per delivery; the latter return, so [Wait] returns once the loop
    has. *)
Definition Wait (loop : loop_status) : option unit :=
  match loop with
  | Returned => Some tt
  | Running => None
  end.

(** What a call of [Subscribe] amounts to over a script: [returned] is [None]
    while [t.pool.Wait()] still blocks, [Some err] once [Subscribe] has
    returned [err]. *)
Record outcome : Type := mkOutcome {
  returned : option (option error);
  loop_events : list event;
  tasks : list (list event)
}.

(** [func (t *taskConsumer) Subscribe(channel Channel, queueName string) error]:
    [t.pool.Go(loop); t.pool.Wait(); return nil]. *)
Definition Subscribe (rt : Runtime) (t : taskConsumer) (channel : Channel)
           (queueName : string) (ctx : Context) (script : list round)
  : outcome :=
  let '(st, evs) :=
    Subscribe_loop (length script) channel queueName 0 ctx script in
  {| returned := match Wait st with
                 | Some _ => Some None
                 | None => None
                 end;
     loop_events := evs;
     tasks := map (fun '(c, v) => task_trace rt t c v) (submitted evs) |}.

End Model.

Arguments event : clear implicits.
Arguments taskConsumer : clear implicits.
Arguments Runtime : clear implicits.
Arguments outcome : clear implicits.

(** ** A concrete consumer

    A registry with the handlers "ping" (succeeds) and "x" (fails with
    "boom"), a codec that refuses an empty body, a decoder that refuses a
    payload that is not a task name, and a validator that refuses the name
    "invalid". *)
Module Demo.

Definition consumer : taskConsumer string :=
  {| manager := fun _ name =>
       if String.eqb name "ping" then None
       else if String.eqb name "x" then Some "boom"
       else Some "handler not found";
     marshal := fun d =>
       if String.eqb (Body d) "" then Err "empty body"
       else Ok {| UUID := MessageId d; Payload := Body d |};
     handler := fun payload _ =>
       if String.eqb payload "{" then Err "unexpected end of input"
       else Ok payload;
     validator := fun name =>
       if String.eqb name "invalid" then Some "name is not allowed"
       else None |}.

(** A broker that accepts every [Ack] and [Reject]. *)
Definition runtime : Runtime string :=
  {| pool_object := "";
     ack_answer := fun _ _ => None;
     reject_answer := fun _ _ => None |}.

(** A broker whose channel is gone: [Ack] and [Reject] fail. *)
Definition broken_runtime : Runtime string :=
  {| pool_object := "";
     ack_answer := fun _ _ => Some "channel closed";
     reject_answer := fun _ _ => Some "channel closed" |}.

Definition delivery (tag : nat) (body : string) : Delivery :=
  {| MessageId := "m"; DeliveryTag := tag; Body := body |}.

Definition live : Context := {| Done := false; Fields := [] |}.

Definition canceled : Context := {| Done := true; Fields := [] |}.

Definition stream (ds : list Delivery) : Chan :=
  {| pending := ds; closed := false |}.

Definition closed_stream : Chan := {| pending := []; closed := true |}.

(** A broker whose first [Consume] fails and whose later ones open an empty
    stream. *)
Definition flaky_channel : Channel :=
  {| Consume := fun calls _ =>
       match calls with
       | 0 => Err "connection refused"
       | _ => Ok (stream [])
       end |}.

(** Nothing happened since the last [select]. *)
Definition idle (c : select_case) : round := {| env := []; choice := c |}.

End Demo.

(** The environment cancels the context; the runtime takes the [Done] case. *)
Definition cancel_round : round := {| env := [Cancel]; choice := CaseDone |}.

Definition quiet_round : round := {| env := []; choice := CaseDone |}.

(** The deliveries the broker sends in a list of actions. *)
Definition sent (acts : list env_action) : list Delivery :=
  flat_map (fun a => match a with Deliver d => [d] | _ => [] end) acts.

(** ** Package e: error codes *)

Module E.

Local Open Scope Z_scope.

(** [const codeBit = 100000] *)
Definition codeBit : Z := 100000.

(** Go's [int] on a 64-bit platform: arithmetic wraps around in two's
    complement. *)
Definition wrap (z : Z) : Z := (z + 2 ^ 63) mod 2 ^ 64 - 2 ^ 63.

(** [fmt]'s verb [%d] *)
Definition decimal (z : Z) : string := NilZero.string_of_int (Z.to_int z).

Section ErrCode.

(** The values an [interface{}] holds; [None] is the nil interface. *)
Context {Any : Type}.

(** [type ErrCode struct { code int; msg string; result interface{} }] *)
Record ErrCode : Type := mkErrCode {
  code : Z;
  msg : string;
  result : option Any
}.

(** [func Froze(code int, message string) ErrorCode]; [code] is an [int], a
    number from -2^63 up to 2^63 - 1. *)
Definition Froze (code : Z) (message : string) : ErrCode :=
  {| code := code; msg := message; result := None |}.

(** [func (e *ErrCode) StatusCode() int]: Go's [/] truncates toward zero. *)
Definition StatusCode (e : ErrCode) : Z := Z.quot (code e) codeBit.

(** [func (e *ErrCode) Code() int]: Go's [%] takes the sign of the
    dividend. *)
Definition Code (e : ErrCode) : Z := Z.rem (code e) codeBit.

Definition Message (e : ErrCode) : string := msg e.

Definition Result (e : ErrCode) : option Any := result e.

(** [ec := *e; ec.code = ec.Code() + statusCode*codeBit; return &ec] *)
Definition WithStatusCode (e : ErrCode) (statusCode : Z) : ErrCode :=
  {| code := wrap (Code e + wrap (statusCode * codeBit));
     msg := msg e;
     result := result e |}.

(** [ec := *e; ec.code = ec.StatusCode()*codeBit + code; return &ec] *)
Definition WithCode (e : ErrCode) (c : Z) : ErrCode :=
  {| code := wrap (wrap (StatusCode e * codeBit) + c);
     msg := msg e;
     result := result e |}.

Definition WithMessage (e : ErrCode) (m : string) : ErrCode :=
  {| code := code e; msg := m; result := result e |}.

Definition WithResult (e : ErrCode) (r : option Any) : ErrCode :=
  {| code := code e; msg := msg e; result := r |}.

Definition ErrInternalServerError : ErrCode :=
  Froze 50010000 "服务器内部错误".

Definition ErrInvalidParam : ErrCode := Froze 40010001 "请求参数不正确".

Definition ErrNotFound : ErrCode := Froze 40410002 "资源不存在".

Definition ErrNotAllowMethod : ErrCode := Froze 40510003 "不允许此方法".

Definition ErrParseContent : ErrCode := Froze 50010004 "解析内容失败".

(** The keys of the map literal in [AddCode]. *)
Definition service_codes : list ErrCode :=
  [ErrInternalServerError; ErrInvalidParam; ErrNotFound; ErrNotAllowMethod;
   ErrParseContent].

(** [fmt.Errorf("error code %d(%s) already exists", code, value)] *)
Definition already_exists (code : Z) (value : string) : error :=
  ("error code " ++ decimal code ++ "(" ++ value ++ ") already exists")%string.

(** One of the two [for errorCode := range ...] loops of [AddCode], over the
    keys in the order in which [range] yields them; [temp] is the
    [map[int]string].  [inl] is the early [return] with an error. *)
Fixpoint add_codes (keys : list ErrCode) (temp : Z -> option string)
  : error + (Z -> option string) :=
  match keys with
  | [] => inr temp
  | errorCode :: keys =>
      let code := Code errorCode in
      match temp code with
      | Some value => inl (already_exists code value)
      | None =>
          add_codes keys
            (fun k => if Z.eqb k code then Some (Message errorCode)
                      else temp k)
      end
  end.

(** [func AddCode(m map[ErrorCode]struct{}) error].  Go does not fix the
    order in which [range] yields the keys of a map: [first] is the order
    for the map literal (a permutation of [service_codes]), [m] the keys of
    the argument in the order of its loop.  The keys are [*ErrCode] values,
    the one implementation of [ErrorCode] in the package. *)
Definition AddCode (first m : list ErrCode) : option error :=
  match add_codes first (fun _ => None) with
  | inl err => Some err
  | inr temp =>
      match add_codes m temp with
      | inl err => Some err
      | inr _ => None
      end
  end.

End ErrCode.

Arguments ErrCode : clear implicits.

End E.

(** ** Package id: the machine id of the id generator *)

Module ID.

Local Open Scope Z_scope.

(** [net.IP], a slice of bytes. *)
Definition IP : Type := list Z.

(** The values of the interface [net.Addr] that [net.InterfaceAddrs] hands
    out: a [*net.IPNet] with its address, or something else. *)
Inductive Addr : Type :=
| IPNet (ip : IP) (mask : list Z)
| OtherAddr (name : string).

(** [uint16(x)] *)
Definition uint16 (x : Z) : Z := x mod 2 ^ 16.

Section Net.

(** [net.IP.IsLoopback] and [net.IP.To4] of Go's standard library; [None] is
    the nil slice. *)
Variable IsLoopback : IP -> bool.
Variable To4 : IP -> option IP.

(** Whether the loop of [lower16BitIPV4] passes over an address:
    [!ok || inet.IP.IsLoopback()], or [inet.IP.To4() == nil]. *)
Definition skipped (a : Addr) : bool :=
  match a with
  | IPNet ip _ =>
      IsLoopback ip || match To4 ip with None => true | Some _ => false end
  | OtherAddr _ => true
  end.

(** [for _, a := range as { ... }; return nil, errors.New(...)] *)
Fixpoint range_addrs (addrs : list Addr) : result IP :=
  match addrs with
  | [] => Err "no private ip address"
  | a :: addrs =>
      match a with
      | IPNet ip _ =>
          if IsLoopback ip then range_addrs addrs
          else
            match To4 ip with
            | None => range_addrs addrs
            | Some ip4 => Ok ip4
            end
      | OtherAddr _ => range_addrs addrs
      end
  end.

(** [func lower16BitIPV4() (net.IP, error)], given what
    [net.InterfaceAddrs()] returns. *)
Definition lower16BitIPV4 (InterfaceAddrs : result (list Addr)) : result IP :=
  match InterfaceAddrs with
  | Err err => Err err
  | Ok addrs => range_addrs addrs
  end.

(** [func machineID() (uint16, error)].  [None] is the run-time panic of an
    index out of range in [ip[2]] or [ip[3]]. *)
Definition machineID (InterfaceAddrs : result (list Addr))
  : option (Z * option error) :=
  match lower16BitIPV4 InterfaceAddrs with
  | Err err => Some (0, Some err)
  | Ok ip =>
      match nth_error ip 2, nth_error ip 3 with
      | Some b2, Some b3 =>
          Some (uint16 (uint16 (Z.shiftl (uint16 b2) 8) + uint16 b3), None)
      | _, _ => None
      end
  end.

End Net.

(** A host that knows only four-byte addresses, for the examples. *)
Definition four_bytes (ip : IP) : option IP :=
  if Nat.eqb (length ip) 4 then Some ip else None.

Definition starts_with_127 (ip : IP) : bool :=
  match ip with
  | b :: _ => Z.eqb b 127
  | [] => false
  end.

Definition host_addrs : list Addr :=
  [OtherAddr "lo"; IPNet [127; 0; 0; 1] [255; 0; 0; 0];
   IPNet [0; 0; 0; 0; 0; 0; 0; 0; 0; 0; 0; 0; 0; 0; 0; 1] [];
   IPNet [8; 8; 4; 210] [255; 255; 255; 0];
   IPNet [10; 0; 0; 7] [255; 0; 0; 0]].

End ID.

(** ** Handlers that do not return

    [t.manager.Run] calls the handler registered for the task, code of the
    user of the package.  It returns an error or nil, or it panics (the pool
    that [NewTaskConsumer] builds with [routine.Recover] catches the panic
    and logs it), or it never returns. *)

Inductive ending (A : Type) : Type :=
| Returns (a : A)
| Panics (fault : string)
| Hangs.
Arguments Returns {A} a.
Arguments Panics {A} fault.
Arguments Hangs {A}.

Definition ended {A : Type} (e : ending A) : bool :=
  match e with
  | Returns _ => true
  | Panics _ => true
  | Hangs => false
  end.

Section Faults.

Context {Param : Type}.

(** [t.manager.Run(ctx, param)] with all its endings. *)
Definition Dispatcher : Type := Context -> Param -> ending (option error).

(** [func (t *taskConsumer) handle(ctx context.Context, d amqp.Delivery) error]
    with [run] for [t.manager.Run].  [handle] has no [defer]: when [Run]
    does not return, no statement after it is executed. *)
Definition handle_with (rt : Runtime Param) (t : taskConsumer Param)
           (run : Dispatcher) (ctx : Context) (d : Delivery)
  : M (ending (option error)) :=
  match marshal t d with
  | Err err =>
      emit (LogError "unmarshal failed" err) ;;
      r <- reject_and_return rt d ;;
      ret (Returns r)
  | Ok msgStruct =>
      let ctx := With ctx "uuid" (UUID msgStruct) in
      emit (LogDebug (Payload msgStruct)) ;;
      param <- Get rt ;;
      match handler t (Payload msgStruct) param with
      | Err err =>
          emit (LogError "unmarshal failed" err) ;;
          r <- reject_and_return rt d ;;
          ret (Returns r)
      | Ok param =>
          match validator t param with
          | Some err =>
              emit (LogError "validate struct failed" err) ;;
              r <- reject_and_return rt d ;;
              ret (Returns r)
          | None =>
              emit (EvRun param) ;;
              match run ctx param with
              | Returns err =>
                  Put param ;;
                  match err with
                  | Some err =>
                      emit (LogError "run failed" err) ;;
                      r <- reject_and_return rt d ;;
                      ret (Returns r)
                  | None =>
                      r <- Ack rt d false ;;
                      ret (Returns r)
                  end
              | Panics fault => ret (Panics fault)
              | Hangs => ret Hangs
              end
          end
      end
  end.

Definition handle_with_trace rt t run ctx d : list (event Param) :=
  snd (runState (handle_with rt t run ctx d) []).

Definition handle_with_ending rt t run ctx d : ending (option error) :=
  fst (runState (handle_with rt t run ctx d) []).

(** Modelled from the spec: the wrapper that [routine.Pool.Go], of a package
    that is not part of these sources, puts around a scheduled function:
    "if it raises a runtime fault, the wrapper intercepts it, invokes a
    configured recovery callback with the fault value and the active
    context, and lets the pool continue running".  The callback configured
    in [NewTaskConsumer] logs "recover" with the fault; the function
    scheduled is the one [handleMessage] hands over,
    [if err := t.handle(ctx, v); err != nil { logger...Error("handle failed") }]. *)
Definition pool_task (rt : Runtime Param) (t : taskConsumer Param)
           (run : Dispatcher) (ctx : Context) (v : Delivery)
  : M (ending unit) :=
  r <- handle_with rt t run ctx v ;;
  match r with
  | Returns (Some err) =>
      emit (LogError "handle failed" err) ;; ret (Returns tt)
  | Returns None => ret (Returns tt)
  | Panics fault => emit (LogError "recover" fault) ;; ret (Returns tt)
  | Hangs => ret Hangs
  end.

(** Modelled from the spec: [routine.Pool.Wait] "blocks until all previously
    scheduled functions (including those scheduled by other already-running
    functions) have returned": the loop and the task of every delivery. *)
Definition Wait_all (loop : loop_status) (tasks : list (ending unit))
  : option unit :=
  match loop with
  | Returned => if forallb ended tasks then Some tt else None
  | Running => None
  end.

(** A call of [Subscribe] over a script, with handlers that may not return:
    [returned_with] is [None] while [t.pool.Wait()] blocks. *)
Record outcome_with : Type := mkOutcomeWith {
  returned_with : option (option error);
  loop_events_with : list (event Param);
  tasks_with : list (ending unit * list (event Param))
}.

(** [func (t *taskConsumer) Subscribe(channel Channel, queueName string) error]:
    [t.pool.Go(loop); t.pool.Wait(); return nil]. *)
Definition Subscribe_with (rt : Runtime Param) (t : taskConsumer Param)
           (run : Dispatcher) (channel : Channel) (queueName : string)
           (ctx : Context) (script : list round) : outcome_with :=
  let '(st, evs) :=
    Subscribe_loop (length script) channel queueName 0 ctx script in
  let ts :=
    map (fun '(c, v) => runState (pool_task rt t run c v) [])
        (submitted evs) in
  {| returned_with := match Wait_all st (map fst ts) with
                      | Some _ => Some None
                      | None => None
                      end;
     loop_events_with := evs;
     tasks_with := ts |}.

End Faults.

Arguments outcome_with : clear implicits.

(** The registry of [Demo], with a handler "crash" that dereferences nil and
    a handler "sleep" that never returns. *)
Definition faulty_run : Dispatcher (Param := string) :=
  fun ctx name =>
    if String.eqb name "crash"
    then Panics "invalid memory address or nil pointer dereference"
    else if String.eqb name "sleep" then Hangs
    else Returns (manager Demo.consumer ctx name).

(** ** Properties of [handle] *)

Section HandleProofs.

Context {Param : Type} (rt : Runtime Param) (t : taskConsumer Param).

(** The five paths of [handle], each with its whole trace and result. *)

Lemma handle_unmarshal_failed ctx d err :
  marshal t d = Err err ->
  runState (handle rt t ctx d) [] =
    (reject_answer rt d false,
     [LogError "unmarshal failed" err; EvReject d false]).
Proof.
  intros H. unfold handle. rewrite H. cbn.
  destruct (reject_answer rt d false); reflexivity.
Qed.

Lemma handle_payload_failed ctx d m err :
  marshal t d = Ok m ->
  handler t (Payload m) (pool_object rt) = Err err ->
  runState (handle rt t ctx d) [] =
    (reject_answer rt d false,
     [LogDebug (Payload m); EvGet;
      LogError "unmarshal failed" err; EvReject d false]).
Proof.
  intros H1 H2. unfold handle. rewrite H1. cbn. rewrite H2. cbn.
  destruct (reject_answer rt d false); reflexivity.
Qed.

Lemma handle_validate_failed ctx d m p err :
  marshal t d = Ok m ->
  handler t (Payload m) (pool_object rt) = Ok p ->
  validator t p = Some err ->
  runState (handle rt t ctx d) [] =
    (reject_answer rt d false,
     [LogDebug (Payload m); EvGet;
      LogError "validate struct failed" err; EvReject d false]).
Proof.
  intros H1 H2 H3. unfold handle. rewrite H1. cbn. rewrite H2. cbn.
  rewrite H3. cbn.
  destruct (reject_answer rt d false); reflexivity.
Qed.

Lemma handle_run_failed ctx d m p err :
  marshal t d = Ok m ->
  handler t (Payload m) (pool_object rt) = Ok p ->
  validator t p = None ->
  manager t (With ctx "uuid" (UUID m)) p = Some err ->
  runState (handle rt t ctx d) [] =
    (reject_answer rt d false,
     [LogDebug (Payload m); EvGet; EvRun p; EvPut p;
      LogError "run failed" err; EvReject d false]).
Proof.
  intros H1 H2 H3 H4. unfold handle. rewrite H1. cbn. rewrite H2. cbn.
  rewrite H3. cbn. rewrite H4. cbn.
  destruct (reject_answer rt d false); reflexivity.
Qed.

Lemma handle_run_succeeded ctx d m p :
  marshal t d = Ok m ->
  handler t (Payload m) (pool_object rt) = Ok p ->
  validator t p = None ->
  manager t (With ctx "uuid" (UUID m)) p = None ->
  runState (handle rt t ctx d) [] =
    (ack_answer rt d false,
     [LogDebug (Payload m); EvGet; EvRun p; EvPut p; EvAck d false]).
Proof.
  intros H1 H2 H3 H4. unfold handle. rewrite H1. cbn. rewrite H2. cbn.
  rewrite H3. cbn. rewrite H4. cbn. reflexivity.
Qed.

(** Every call of [handle] takes one of the five paths. *)
Lemma handle_cases ctx d :
  (exists err, marshal t d = Err err)
  \/ (exists m err,
        marshal t d = Ok m
        /\ handler t (Payload m) (pool_object rt) = Err err)
  \/ (exists m p err,
        marshal t d = Ok m
        /\ handler t (Payload m) (pool_object rt) = Ok p
        /\ validator t p = Some err)
  \/ (exists m p err,
        marshal t d = Ok m
        /\ handler t (Payload m) (pool_object rt) = Ok p
        /\ validator t p = None
        /\ manager t (With ctx "uuid" (UUID m)) p = Some err)
  \/ (exists m p,
        marshal t d = Ok m
        /\ handler t (Payload m) (pool_object rt) = Ok p
        /\ validator t p = None
        /\ manager t (With ctx "uuid" (UUID m)) p = None).
Proof.
  destruct (marshal t d) as [m|e]; [|left; eauto].
  destruct (handler t (Payload m) (pool_object rt)) as [p|e] eqn:Hh;
    [|right; left; eauto].
  destruct (validator t p) as [e|] eqn:Hv;
    [right; right; left; eauto 6|].
  destruct (manager t (With ctx "uuid" (UUID m)) p) as [e|] eqn:Hr.
  - right; right; right; left. eauto 8.
  - right; right; right; right. eauto 8.
Qed.

(** The terminal call of [handle] is its last call, the result of [handle]
    is the broker's answer to it, and no other call is a terminal call. *)
Lemma handle_ends_with_terminal ctx d :
  (exists pre,
      runState (handle rt t ctx d) [] =
        (reject_answer rt d false, pre ++ [EvReject d false])
      /\ filter is_terminal pre = [])
  \/ (exists pre,
      runState (handle rt t ctx d) [] =
        (ack_answer rt d false, pre ++ [EvAck d false])
      /\ filter is_terminal pre = []).
Proof.
  destruct (handle_cases ctx d)
    as [[e H]|[(m & e & H1 & H2)|[(m & p & e & H1 & H2 & H3)
       |[(m & p & e & H1 & H2 & H3 & H4)|(m & p & H1 & H2 & H3 & H4)]]]].
  - left. rewrite (handle_unmarshal_failed _ _ _ H).
    exists [LogError "unmarshal failed" e]. split; reflexivity.
  - left. rewrite (handle_payload_failed _ _ _ _ H1 H2).
    exists [LogDebug (Payload m); EvGet; LogError "unmarshal failed" e].
    split; reflexivity.
  - left. rewrite (handle_validate_failed _ _ _ _ _ H1 H2 H3).
    exists [LogDebug (Payload m); EvGet;
            LogError "validate struct failed" e].
    split; reflexivity.
  - left. rewrite (handle_run_failed _ _ _ _ _ H1 H2 H3 H4).
    exists [LogDebug (Payload m); EvGet; EvRun p; EvPut p;
            LogError "run failed" e].
    split; reflexivity.
  - right. rewrite (handle_run_succeeded _ _ _ _ H1 H2 H3 H4).
    exists [LogDebug (Payload m); EvGet; EvRun p; EvPut p].
    split; reflexivity.
Qed.

(** The task of the pool adds at most a log line to the trace of [handle]. *)
Lemma task_trace_handle ctx v :
  task_trace rt t ctx v =
    handle_trace rt t ctx v ++
    match handle_result rt t ctx v with
    | Some err => [LogError "handle failed" err]
    | None => []
    end.
Proof.
  unfold task_trace, handle_trace, handle_result, task. cbn.
  destruct (runState (handle rt t ctx v) []) as [[e|] tr]; cbn.
  - reflexivity.
  - now rewrite app_nil_r.
Qed.

Lemma filter_terminal_handle ctx d :
  filter is_terminal (handle_trace rt t ctx d) = [EvReject d false]
  \/ filter is_terminal (handle_trace rt t ctx d) = [EvAck d false].
Proof.
  unfold handle_trace.
  destruct (handle_ends_with_terminal ctx d) as [(pre & E & P)|(pre & E & P)];
    rewrite E; cbn [snd]; rewrite filter_app, P; [left|right]; reflexivity.
Qed.

Lemma filter_terminal_task ctx v :
  filter is_terminal (task_trace rt t ctx v)
  = filter is_terminal (handle_trace rt t ctx v).
Proof.
  rewrite task_trace_handle, filter_app.
  destruct (handle_result rt t ctx v); cbn; now rewrite app_nil_r.
Qed.

End HandleProofs.

(** ** Properties of the loops *)

Section LoopProofs.

Context {Param : Type}.

(** A context that is done stays done. *)
Lemma env_ctx_done acts ctx :
  Done ctx = true -> Done (env_ctx acts ctx) = true.
Proof.
  unfold env_ctx. revert ctx.
  induction acts as [|a acts IH]; intros ctx H; cbn; [exact H|].
  apply IH. destruct a; cbn; auto.
Qed.

Lemma env_ctx_cancel ctx : Done (env_ctx [Cancel] ctx) = true.
Proof. reflexivity. Qed.

(** [handleMessage] returns only through [case <-ctx.Done()]. *)
Lemma handleMessage_returned_done script :
  forall ctx ch (evs : list (event Param)) ctx' rest,
    handleMessage ctx ch script = (Returned, evs, ctx', rest) ->
    Done ctx' = true.
Proof.
  induction script as [|r script IH]; intros ctx ch evs ctx' rest; cbn.
  - discriminate.
  - destruct (Done (env_ctx (env r) ctx)) eqn:D;
      destruct (recv (env_chan (env r) ch)) as [[v ch']|] eqn:R.
    + destruct (choice r).
      * intros E. inversion E; subst. exact D.
      * destruct (handleMessage (env_ctx (env r) ctx) ch' script)
          as [[[st e] c] s] eqn:E.
        intros E'. inversion E'; subst. eapply IH; eauto.
    + intros E. inversion E; subst. exact D.
    + destruct (handleMessage (env_ctx (env r) ctx) ch' script)
        as [[[st e] c] s] eqn:E.
      intros E'. inversion E'; subst. eapply IH; eauto.
    + intros E. eapply IH; eauto.
Qed.

(** [handleMessage] does nothing but hand deliveries to the pool. *)
Lemma handleMessage_events_go script :
  forall ctx ch st (evs : list (event Param)) ctx' rest,
    handleMessage ctx ch script = (st, evs, ctx', rest) ->
    Forall (fun e => is_go e = true) evs.
Proof.
  induction script as [|r script IH]; intros ctx ch st evs ctx' rest; cbn.
  - intros E. inversion E. constructor.
  - destruct (Done (env_ctx (env r) ctx)) eqn:D;
      destruct (recv (env_chan (env r) ch)) as [[v ch']|] eqn:R.
    + destruct (choice r).
      * intros E. inversion E. constructor.
      * destruct (handleMessage (env_ctx (env r) ctx) ch' script)
          as [[[st0 e] c] s] eqn:E.
        intros E'. inversion E'; subst. constructor; [reflexivity|].
        eapply IH; eauto.
    + intros E. inversion E. constructor.
    + destruct (handleMessage (env_ctx (env r) ctx) ch' script)
        as [[[st0 e] c] s] eqn:E.
      intros E'. inversion E'; subst. constructor; [reflexivity|].
      eapply IH; eauto.
    + intros E. eapply IH; eauto.
Qed.

(** Once the environment cancels and the runtime takes the [Done] case,
    [handleMessage] returns, and leaves the round that follows unread. *)
Lemma handleMessage_cancel_returns script :
  forall ctx ch,
    exists (evs : list (event Param)) ctx' r rest,
      handleMessage ctx ch (script ++ [cancel_round; quiet_round])
      = (Returned, evs, ctx', r :: rest).
Proof.
  induction script as [|r script IH]; intros ctx ch.
  - cbn [app handleMessage].
    rewrite env_ctx_cancel.
    destruct (recv (env_chan (env cancel_round) ch)) as [[v ch']|];
      cbn [choice cancel_round]; eauto.
  - cbn [app handleMessage].
    destruct (Done (env_ctx (env r) ctx)) eqn:D;
      destruct (recv (env_chan (env r) ch)) as [[v ch']|] eqn:R.
    + destruct (choice r).
      * destruct script; cbn; eauto.
      * destruct (IH (env_ctx (env r) ctx) ch') as (e & c & r' & s & E).
        rewrite E. eauto.
    + destruct script; cbn; eauto.
    + destruct (IH (env_ctx (env r) ctx) ch') as (e & c & r' & s & E).
      rewrite E. eauto.
    + apply IH.
Qed.

(** With the context done, the outer loop returns at its next [select],
    before any call of [Consume]. *)
Lemma Subscribe_loop_done fuel channel q calls ctx r rest :
  Done (env_ctx (env r) ctx) = true ->
  Subscribe_loop (S fuel) channel q calls ctx (r :: rest)
  = (Returned, @nil (event Param)).
Proof. intros H. cbn. now rewrite H. Qed.

(** Every [Consume] of the outer loop has the same arguments. *)
Lemma Subscribe_loop_consume_args fuel channel q :
  forall calls ctx script (e : event Param),
    In e (snd (Subscribe_loop fuel channel q calls ctx script)) ->
    is_consume e = true ->
    e = EvConsume q ("consumer." ++ q)%string false false false false None.
Proof.
  induction fuel as [|fuel IH]; intros calls ctx script e; cbn.
  - intros [].
  - destruct script as [|r rest]; [intros []|].
    destruct (Done (env_ctx (env r) ctx)); [intros []|].
    destruct (Consume channel calls q) as [ch|err].
    + destruct (handleMessage (env_ctx (env r) ctx) ch rest)
        as [[[st evs] ctx'] rest'] eqn:E.
      pose proof (handleMessage_events_go _ _ _ _ _ _ _ E) as G.
      rewrite Forall_forall in G.
      destruct st.
      * destruct (Subscribe_loop fuel channel q (S calls) ctx' rest')
          as [st' evs'] eqn:E'.
        cbn. intros [<-|I] C; [reflexivity|].
        apply in_app_or in I. destruct I as [I|I].
        -- apply G in I. destruct e; discriminate.
        -- apply (IH (S calls) ctx' rest'); [rewrite E'; exact I|exact C].
      * cbn. intros [<-|I] C; [reflexivity|].
        apply G in I. destruct e; discriminate.
    + destruct (Subscribe_loop fuel channel q (S calls)
                  (env_ctx (env r) ctx) rest) as [st' evs'] eqn:E'.
      cbn. intros [<-|[<-|I]] C; [reflexivity|discriminate|].
      apply (IH (S calls) (env_ctx (env r) ctx) rest);
        [rewrite E'; exact I|exact C].
Qed.

(** Once the environment cancels, the outer loop returns. *)
Lemma Subscribe_loop_cancel_returns channel q script :
  forall fuel calls ctx,
    length script + 2 <= fuel ->
    fst (@Subscribe_loop Param fuel channel q calls ctx
           (script ++ [cancel_round; quiet_round])) = Returned.
Proof.
  induction script as [|r script IH]; intros fuel calls ctx F.
  - destruct fuel as [|fuel]; [cbn in F; lia|].
    cbn [app]. now rewrite Subscribe_loop_done.
  - destruct fuel as [|fuel]; [cbn in F; lia|].
    cbn [app Subscribe_loop length] in *.
    destruct (Done (env_ctx (env r) ctx)) eqn:D; [reflexivity|].
    destruct (Consume channel calls q) as [ch|err].
    + destruct (handleMessage_cancel_returns script (env_ctx (env r) ctx) ch)
        as (evs & ctx' & r' & rest' & E).
      rewrite E.
      destruct fuel as [|fuel]; [lia|].
      rewrite Subscribe_loop_done; [reflexivity|].
      apply env_ctx_done.
      eapply handleMessage_returned_done; eauto.
    + specialize (IH fuel (S calls) (env_ctx (env r) ctx)).
      destruct (Subscribe_loop fuel channel q (S calls)
                  (env_ctx (env r) ctx)
                  (script ++ [cancel_round; quiet_round])) as [st evs].
      cbn in *. apply IH. lia.
Qed.

End LoopProofs.

Lemma filter_terminal_nil {Param : Type} (l : list (event Param)) :
  filter is_terminal l = [] ->
  filter is_ack l = [] /\ filter is_reject l = [].
Proof.
  induction l as [|e l IH]; cbn; [auto|].
  unfold is_terminal.
  destruct (is_ack e), (is_reject e); cbn; try discriminate; auto.
Qed.

Lemma loop_events_Subscribe {Param : Type} (rt : Runtime Param)
      (t : taskConsumer Param) channel q ctx script :
  loop_events (Subscribe rt t channel q ctx script)
  = snd (Subscribe_loop (length script) channel q 0 ctx script).
Proof.
  unfold Subscribe.
  now destruct (Subscribe_loop (length script) channel q 0 ctx script).
Qed.

Lemma returned_Subscribe {Param : Type} (rt : Runtime Param)
      (t : taskConsumer Param) channel q ctx script :
  returned (Subscribe rt t channel q ctx script)
  = match Wait (fst (Subscribe_loop (Param := Param)
                       (length script) channel q 0 ctx script)) with
    | Some _ => Some None
    | None => None
    end.
Proof.
  unfold Subscribe.
  now destruct (Subscribe_loop (length script) channel q 0 ctx script).
Qed.

Lemma tasks_Subscribe {Param : Type} (rt : Runtime Param)
      (t : taskConsumer Param) channel q ctx script :
  tasks (Subscribe rt t channel q ctx script)
  = map (fun '(c, v) => task_trace rt t c v)
        (submitted (loop_events (Subscribe rt t channel q ctx script))).
Proof.
  unfold Subscribe.
  now destruct (Subscribe_loop (length script) channel q 0 ctx script).
Qed.

(** ** The acknowledgment protocol of [handle] *)

(** C2: when the delivery decodes and validates, a handler that returns nil
    leads to one [Ack(false)] and no [Reject], and a handler that returns an
    error to one [Reject(false)] and no [Ack]. *)
Theorem handle_ack_follows_handler {Param : Type}
        (rt : Runtime Param) (t : taskConsumer Param) ctx d m p :
  marshal t d = Ok m ->
  handler t (Payload m) (pool_object rt) = Ok p ->
  validator t p = None ->
  (manager t (With ctx "uuid" (UUID m)) p = None ->
   filter is_ack (handle_trace rt t ctx d) = [EvAck d false]
   /\ filter is_reject (handle_trace rt t ctx d) = [])
  /\ (forall err,
         manager t (With ctx "uuid" (UUID m)) p = Some err ->
         filter is_reject (handle_trace rt t ctx d) = [EvReject d false]
         /\ filter is_ack (handle_trace rt t ctx d) = []).
Proof.
  intros H1 H2 H3. unfold handle_trace. split.
  - intros H4. rewrite (handle_run_succeeded rt t _ _ _ _ H1 H2 H3 H4).
    split; reflexivity.
  - intros err H4. rewrite (handle_run_failed rt t _ _ _ _ _ H1 H2 H3 H4).
    split; reflexivity.
Qed.

Lemma handle_ack_follows_handler_witness :
  (filter is_ack
     (handle_trace Demo.runtime Demo.consumer Demo.live
        (Demo.delivery 1 "ping"))
   = [EvAck (Demo.delivery 1 "ping") false]
   /\ filter is_reject
        (handle_trace Demo.runtime Demo.consumer Demo.live
           (Demo.delivery 1 "ping")) = [])
  /\ (filter is_reject
        (handle_trace Demo.runtime Demo.consumer Demo.live
           (Demo.delivery 2 "x"))
      = [EvReject (Demo.delivery 2 "x") false]
      /\ filter is_ack
           (handle_trace Demo.runtime Demo.consumer Demo.live
              (Demo.delivery 2 "x")) = []).
Proof.
  split.
  - apply (proj1 (handle_ack_follows_handler
                    Demo.runtime Demo.consumer Demo.live
                    (Demo.delivery 1 "ping")
                    {| UUID := "m"; Payload := "ping" |} "ping"
                    eq_refl eq_refl eq_refl)).
    reflexivity.
  - apply (proj2 (handle_ack_follows_handler
                    Demo.runtime Demo.consumer Demo.live
                    (Demo.delivery 2 "x")
                    {| UUID := "m"; Payload := "x" |} "x"
                    eq_refl eq_refl eq_refl) "boom").
    reflexivity.
Defined.

(** C3: when the codec cannot decode the delivery, [handle] logs, calls
    [Reject(false)] once and stops: no [Ack], no [Get], no [Run]; its result
    is the answer of [Reject]. *)
Theorem handle_rejects_undecodable {Param : Type}
        (rt : Runtime Param) (t : taskConsumer Param) ctx d err :
  marshal t d = Err err ->
  handle_trace rt t ctx d
  = [LogError "unmarshal failed" err; EvReject d false]
  /\ handle_result rt t ctx d = reject_answer rt d false
  /\ filter is_reject (handle_trace rt t ctx d) = [EvReject d false]
  /\ filter is_ack (handle_trace rt t ctx d) = []
  /\ filter is_run (handle_trace rt t ctx d) = [].
Proof.
  intros H. unfold handle_trace, handle_result.
  rewrite (handle_unmarshal_failed rt t ctx d err H).
  repeat split; reflexivity.
Qed.

Lemma handle_rejects_undecodable_witness :
  handle_trace Demo.runtime Demo.consumer Demo.live (Demo.delivery 3 "")
  = [LogError "unmarshal failed" "empty body";
     EvReject (Demo.delivery 3 "") false]
  /\ handle_result Demo.runtime Demo.consumer Demo.live (Demo.delivery 3 "")
     = None
  /\ filter is_reject
       (handle_trace Demo.runtime Demo.consumer Demo.live
          (Demo.delivery 3 ""))
     = [EvReject (Demo.delivery 3 "") false]
  /\ filter is_ack
       (handle_trace Demo.runtime Demo.consumer Demo.live
          (Demo.delivery 3 "")) = []
  /\ filter is_run
       (handle_trace Demo.runtime Demo.consumer Demo.live
          (Demo.delivery 3 "")) = [].
Proof.
  apply (handle_rejects_undecodable Demo.runtime Demo.consumer Demo.live
           (Demo.delivery 3 "") "empty body").
  reflexivity.
Defined.

(** On the two paths between [Get] and [Run], [handle] returns with the
    object of the pool still in hand. *)
Lemma handle_rejected_param_not_put {Param : Type}
      (rt : Runtime Param) (t : taskConsumer Param) ctx d m :
  marshal t d = Ok m ->
  (exists err, handler t (Payload m) (pool_object rt) = Err err)
  \/ (exists p err, handler t (Payload m) (pool_object rt) = Ok p
                    /\ validator t p = Some err) ->
  filter is_get (handle_trace rt t ctx d) = [EvGet]
  /\ filter is_put (handle_trace rt t ctx d) = []
  /\ filter is_terminal (handle_trace rt t ctx d) = [EvReject d false].
Proof.
  intros H1 [(err & H2)|(p & err & H2 & H3)]; unfold handle_trace.
  - rewrite (handle_payload_failed rt t _ _ _ _ H1 H2).
    repeat split; reflexivity.
  - rewrite (handle_validate_failed rt t _ _ _ _ _ H1 H2 H3).
    repeat split; reflexivity.
Qed.

(** C4: a payload that does not decode, and a parameter that does not
    validate: [handle] calls [Get], rejects with requeue=false, and returns
    without any call of [Put]. *)
Theorem handle_rejects_without_put :
  handle_trace Demo.runtime Demo.consumer Demo.live (Demo.delivery 4 "{")
  = [LogDebug "{"; EvGet;
     LogError "unmarshal failed" "unexpected end of input";
     EvReject (Demo.delivery 4 "{") false]
  /\ filter is_put
       (handle_trace Demo.runtime Demo.consumer Demo.live
          (Demo.delivery 4 "{")) = []
  /\ handle_trace Demo.runtime Demo.consumer Demo.live
       (Demo.delivery 5 "invalid")
     = [LogDebug "invalid"; EvGet;
        LogError "validate struct failed" "name is not allowed";
        EvReject (Demo.delivery 5 "invalid") false]
  /\ filter is_put
       (handle_trace Demo.runtime Demo.consumer Demo.live
          (Demo.delivery 5 "invalid")) = [].
Proof. repeat split; reflexivity. Qed.

(** C8: when the delivery reaches dispatch, [Put] is the call right after
    [Run], whatever [Run] returned; no terminal call comes before it, and
    what follows is the terminal call (after the log line on an error),
    with no further [Put] or [Run]. *)
Theorem handle_puts_right_after_run {Param : Type}
        (rt : Runtime Param) (t : taskConsumer Param) ctx d m p :
  marshal t d = Ok m ->
  handler t (Payload m) (pool_object rt) = Ok p ->
  validator t p = None ->
  exists post,
    handle_trace rt t ctx d
    = [LogDebug (Payload m); EvGet; EvRun p; EvPut p] ++ post
    /\ match manager t (With ctx "uuid" (UUID m)) p with
       | None => post = [EvAck d false]
       | Some err => post = [LogError "run failed" err; EvReject d false]
       end.
Proof.
  intros H1 H2 H3. unfold handle_trace.
  destruct (manager t (With ctx "uuid" (UUID m)) p) as [err|] eqn:H4.
  - rewrite (handle_run_failed rt t _ _ _ _ _ H1 H2 H3 H4).
    eexists. split; reflexivity.
  - rewrite (handle_run_succeeded rt t _ _ _ _ H1 H2 H3 H4).
    eexists. split; reflexivity.
Qed.

Lemma handle_puts_right_after_run_witness :
  exists post,
    handle_trace Demo.runtime Demo.consumer Demo.live (Demo.delivery 2 "x")
    = [LogDebug "x"; EvGet; EvRun "x"; EvPut "x"] ++ post
    /\ post = [LogError "run failed" "boom";
               EvReject (Demo.delivery 2 "x") false].
Proof.
  exact (handle_puts_right_after_run Demo.runtime Demo.consumer Demo.live
           (Demo.delivery 2 "x") {| UUID := "m"; Payload := "x" |} "x"
           eq_refl eq_refl eq_refl).
Defined.

(** C10: [handle] returns an error only when its terminal call does, and
    then that error; a delivery that fails to decode, to validate or in its
    handler is logged and rejected, and [handle] returns what [Reject]
    answers, nil when the broker accepts the call. *)
Theorem handle_returns_terminal_answer {Param : Type}
        (rt : Runtime Param) (t : taskConsumer Param) ctx d :
  (forall e,
      handle_result rt t ctx d = Some e ->
      (filter is_terminal (handle_trace rt t ctx d) = [EvReject d false]
       /\ reject_answer rt d false = Some e)
      \/ (filter is_terminal (handle_trace rt t ctx d) = [EvAck d false]
          /\ ack_answer rt d false = Some e))
  /\ ((exists err, marshal t d = Err err)
      \/ (exists m err,
             marshal t d = Ok m
             /\ handler t (Payload m) (pool_object rt) = Err err)
      \/ (exists m p err,
             marshal t d = Ok m
             /\ handler t (Payload m) (pool_object rt) = Ok p
             /\ validator t p = Some err)
      \/ (exists m p err,
             marshal t d = Ok m
             /\ handler t (Payload m) (pool_object rt) = Ok p
             /\ validator t p = None
             /\ manager t (With ctx "uuid" (UUID m)) p = Some err) ->
      handle_result rt t ctx d = reject_answer rt d false
      /\ filter is_terminal (handle_trace rt t ctx d) = [EvReject d false]
      /\ (exists msg err, In (LogError msg err) (handle_trace rt t ctx d))
      /\ (reject_answer rt d false = None ->
          handle_result rt t ctx d = None)).
Proof.
  unfold handle_result, handle_trace. split.
  - intros e.
    destruct (handle_ends_with_terminal rt t ctx d)
      as [(pre & E & P)|(pre & E & P)];
      rewrite E; cbn [fst snd]; rewrite filter_app, P; intros A;
      [left|right]; split; auto.
  - intros [[e H]|[(m & e & H1 & H2)|[(m & p & e & H1 & H2 & H3)
           |(m & p & e & H1 & H2 & H3 & H4)]]].
    + rewrite (handle_unmarshal_failed rt t _ _ _ H). cbn.
      repeat split; eauto.
    + rewrite (handle_payload_failed rt t _ _ _ _ H1 H2). cbn.
      repeat split; eauto 6.
    + rewrite (handle_validate_failed rt t _ _ _ _ _ H1 H2 H3). cbn.
      repeat split; eauto 6.
    + rewrite (handle_run_failed rt t _ _ _ _ _ H1 H2 H3 H4). cbn.
      repeat split; eauto 8.
Qed.

Lemma handle_returns_terminal_answer_witness :
  ((filter is_terminal
      (handle_trace Demo.broken_runtime Demo.consumer Demo.live
         (Demo.delivery 1 "ping"))
    = [EvReject (Demo.delivery 1 "ping") false]
    /\ reject_answer Demo.broken_runtime (Demo.delivery 1 "ping") false
       = Some "channel closed")
   \/ (filter is_terminal
         (handle_trace Demo.broken_runtime Demo.consumer Demo.live
            (Demo.delivery 1 "ping"))
       = [EvAck (Demo.delivery 1 "ping") false]
       /\ ack_answer Demo.broken_runtime (Demo.delivery 1 "ping") false
          = Some "channel closed"))
  /\ handle_result Demo.runtime Demo.consumer Demo.live (Demo.delivery 2 "x")
     = None.
Proof.
  split.
  - apply (proj1 (handle_returns_terminal_answer
                    Demo.broken_runtime Demo.consumer Demo.live
                    (Demo.delivery 1 "ping")) "channel closed").
    reflexivity.
  - refine (proj2 (proj2 (proj2
              (proj2 (handle_returns_terminal_answer
                        Demo.runtime Demo.consumer Demo.live
                        (Demo.delivery 2 "x")) _))) eq_refl).
    right; right; right.
    exists {| UUID := "m"; Payload := "x" |}, "x", "boom".
    repeat split; reflexivity.
Defined.

(** ** The loops of [Subscribe] *)

(** C5: on a stream the broker has closed, with the context not canceled,
    every [select] of [handleMessage] takes the receive, which yields the
    zero delivery, and hands it to the pool; the loop is still running after
    any number of rounds. *)
Theorem handleMessage_spins_on_closed_stream (Param : Type) :
  forall choices : list select_case,
    @handleMessage Param Demo.live Demo.closed_stream
                   (map Demo.idle choices)
    = (Running, map (fun _ => EvGo Demo.live zeroDelivery) choices,
       Demo.live, []).
Proof.
  induction choices as [|c choices IH]; [reflexivity|].
  cbn [map handleMessage]. cbn [Demo.idle env choice env_ctx env_chan
                                fold_left Demo.live Done].
  cbn [recv Demo.closed_stream pending closed].
  change {| pending := []; closed := true |} with Demo.closed_stream.
  change {| Done := false; Fields := [] |} with Demo.live.
  rewrite IH. reflexivity.
Qed.

(** C7, as the claim has it, fails: with the context canceled and a delivery
    waiting in the stream, the [select] of [handleMessage] may take the
    receive, and the delivery is handed to the pool. *)
Lemma handleMessage_submits_after_cancel :
  ~ (forall ctx ch script,
        Done ctx = true ->
        submitted (snd (fst (fst (@handleMessage string ctx ch script))))
        = []).
Proof.
  intros H.
  specialize (H Demo.canceled (Demo.stream [Demo.delivery 6 "ping"])
                [Demo.idle CaseRecv] eq_refl).
  discriminate H.
Qed.

(** C7, amended: from the [select] at which the context is done, the outer
    loop returns without a call of [Consume]; [handleMessage] returns
    without handing anything to the pool when its [select] takes the [Done]
    case, which it must when no delivery can be received; and [handle] does
    the same under a canceled context as under a live one, when the
    handlers do not look at the context. *)
Theorem cancellation_stops_the_loops {Param : Type}
        (rt : Runtime Param) (t : taskConsumer Param) ctx r :
  Done (env_ctx (env r) ctx) = true ->
  (forall fuel channel q calls rest,
      Subscribe_loop (S fuel) channel q calls ctx (r :: rest)
      = (Returned, @nil (event Param)))
  /\ (forall ch rest,
         choice r = CaseDone \/ recv (env_chan (env r) ch) = None ->
         handleMessage ctx ch (r :: rest)
         = (Returned, @nil (event Param), env_ctx (env r) ctx, rest))
  /\ (forall d,
         (forall c p, manager t (cancel c) p = manager t c p) ->
         runState (handle rt t (cancel ctx) d) []
         = runState (handle rt t ctx d) []).
Proof.
  intros D. split; [|split].
  - intros. now apply Subscribe_loop_done.
  - intros ch rest H. cbn [handleMessage]. rewrite D.
    destruct H as [H|H]; rewrite H.
    + now destruct (recv (env_chan (env r) ch)) as [[v ch']|].
    + reflexivity.
  - intros d H. unfold handle.
    destruct (marshal t d) as [m|e]; [|reflexivity].
    cbn.
    destruct (handler t (Payload m) (pool_object rt)) as [p|e];
      [|reflexivity].
    destruct (validator t p); [reflexivity|].
    cbn.
    change (With (cancel ctx) "uuid" (UUID m))
      with (cancel (With ctx "uuid" (UUID m))).
    now rewrite H.
Qed.

Lemma cancellation_stops_the_loops_witness :
  @Subscribe_loop string 3 Demo.flaky_channel "tasks" 0 Demo.live
                  [cancel_round; quiet_round]
  = (Returned, [])
  /\ @handleMessage string Demo.live (Demo.stream [Demo.delivery 6 "ping"])
                    [cancel_round; quiet_round]
     = (Returned, [], Demo.canceled, [quiet_round])
  /\ runState (handle Demo.runtime Demo.consumer (cancel Demo.live)
                 (Demo.delivery 1 "ping")) []
     = runState (handle Demo.runtime Demo.consumer Demo.live
                   (Demo.delivery 1 "ping")) [].
Proof.
  destruct (cancellation_stops_the_loops Demo.runtime Demo.consumer
              Demo.live cancel_round eq_refl) as (A & B & C).
  split; [|split].
  - exact (A 2 Demo.flaky_channel "tasks" 0 [quiet_round]).
  - exact (B (Demo.stream [Demo.delivery 6 "ping"]) [quiet_round]
             (or_introl eq_refl)).
  - exact (C (Demo.delivery 1 "ping") (fun _ _ => eq_refl)).
Defined.

(** C9: every [Consume] of [Subscribe] is for the queue, with the tag
    "consumer." followed by the queue name, the four flags false and nil
    arguments; when [Consume] fails the loop logs the error and goes
    straight into its next iteration, which, the context not being done,
    calls [Consume] again. *)
Theorem Subscribe_consume_and_retry {Param : Type}
        (rt : Runtime Param) (t : taskConsumer Param) channel q :
  (forall ctx script e,
      In e (loop_events (Subscribe rt t channel q ctx script)) ->
      is_consume e = true ->
      e = EvConsume q ("consumer." ++ q)%string false false false false None)
  /\ (forall fuel calls ctx r rest err,
         Done (env_ctx (env r) ctx) = false ->
         Consume channel calls q = Err err ->
         @Subscribe_loop Param (S fuel) channel q calls ctx (r :: rest)
         = (fst (@Subscribe_loop Param fuel channel q (S calls)
                   (env_ctx (env r) ctx) rest),
            EvConsume q ("consumer." ++ q)%string
                      false false false false None
            :: LogError "consumer failed" err
            :: snd (Subscribe_loop fuel channel q (S calls)
                      (env_ctx (env r) ctx) rest)))
  /\ (forall fuel calls ctx r r' rest err,
         Done (env_ctx (env r') (env_ctx (env r) ctx)) = false ->
         Consume channel calls q = Err err ->
         exists st evs,
           @Subscribe_loop Param (S (S fuel)) channel q calls ctx
                           (r :: r' :: rest)
           = (st,
              EvConsume q ("consumer." ++ q)%string
                        false false false false None
              :: LogError "consumer failed" err
              :: EvConsume q ("consumer." ++ q)%string
                           false false false false None
              :: evs)).
Proof.
  split; [|split].
  - intros ctx script e I C. rewrite loop_events_Subscribe in I.
    eapply Subscribe_loop_consume_args; eauto.
  - intros fuel calls ctx r rest err D C.
    cbn [Subscribe_loop]. rewrite D, C.
    now destruct (Subscribe_loop fuel channel q (S calls)
                    (env_ctx (env r) ctx) rest).
  - intros fuel calls ctx r r' rest err D' C.
    assert (D : Done (env_ctx (env r) ctx) = false).
    { destruct (Done (env_ctx (env r) ctx)) eqn:D; [|reflexivity].
      now rewrite (env_ctx_done (env r') _ D) in D'. }
    cbn [Subscribe_loop]. rewrite D, C, D'.
    destruct (Consume channel (S calls) q) as [ch|err'].
    + destruct (handleMessage (env_ctx (env r') (env_ctx (env r) ctx))
                  ch rest) as [[[[|] evs] ctx'] rest'].
      * destruct (Subscribe_loop fuel channel q (S (S calls)) ctx' rest').
        eauto.
      * eauto.
    + destruct (Subscribe_loop fuel channel q (S (S calls))
                  (env_ctx (env r') (env_ctx (env r) ctx)) rest).
      eauto.
Qed.

Lemma Subscribe_consume_and_retry_witness :
  (EvConsume (Param := string) "tasks" "consumer.tasks"
             false false false false None
   = EvConsume "tasks" ("consumer." ++ "tasks")%string
               false false false false None)
  /\ @Subscribe_loop string 3 Demo.flaky_channel "tasks" 0 Demo.live
                     [Demo.idle CaseDone; Demo.idle CaseDone;
                      Demo.idle CaseDone]
     = (Running,
        [EvConsume "tasks" "consumer.tasks" false false false false None;
         LogError "consumer failed" "connection refused";
         EvConsume "tasks" "consumer.tasks" false false false false None]).
Proof.
  destruct (Subscribe_consume_and_retry Demo.runtime Demo.consumer
              Demo.flaky_channel "tasks") as (A & B & _).
  split.
  - apply (A Demo.live [Demo.idle CaseDone]); [|reflexivity].
    left. reflexivity.
  - exact (B 2 0 Demo.live (Demo.idle CaseDone)
             [Demo.idle CaseDone; Demo.idle CaseDone]
             "connection refused" eq_refl eq_refl).
Defined.

(** ** Properties of the error codes (package e) *)

Section ErrCodeProofs.

Context {Any : Type}.

Local Open Scope Z_scope.

Lemma wrap_small z : - 2 ^ 63 <= z < 2 ^ 63 -> E.wrap z = z.
Proof.
  intros H. unfold E.wrap.
  change (2 ^ 63) with 9223372036854775808 in *.
  change (2 ^ 64) with 18446744073709551616.
  rewrite Z.mod_small; lia.
Qed.

Ltac int_bounds :=
  unfold E.StatusCode, E.Code, E.codeBit in *; cbn [E.code] in *;
  change (2 ^ 63) with 9223372036854775808 in *;
  Z.to_euclidean_division_equations; lia.

(** The status and the code of [s * codeBit + c]. *)
Lemma split_pack s c :
  0 <= s -> 0 <= c < E.codeBit ->
  Z.quot (s * E.codeBit + c) E.codeBit = s
  /\ Z.rem (s * E.codeBit + c) E.codeBit = c.
Proof. intros Hs Hc. int_bounds. Qed.

Lemma ErrCode_eq (a b : E.ErrCode Any) :
  E.code a = E.code b -> E.msg a = E.msg b -> E.result a = E.result b ->
  a = b.
Proof. destruct a, b. cbn. intros -> -> ->. reflexivity. Qed.

(** The stored code after [WithStatusCode], when nothing overflows. *)
Lemma code_WithStatusCode (e : E.ErrCode Any) s :
  - 2 ^ 63 <= E.code e < 2 ^ 63 ->
  0 <= s <= 92233720368546 ->
  E.code (E.WithStatusCode e s) = s * E.codeBit + E.Code e.
Proof.
  intros He Hs. cbn [E.WithStatusCode E.code].
  rewrite (wrap_small (s * E.codeBit)) by int_bounds.
  rewrite wrap_small by int_bounds. lia.
Qed.

(** The stored code after [WithCode], when nothing overflows. *)
Lemma code_WithCode (e : E.ErrCode Any) c :
  0 <= E.code e ->
  0 <= c ->
  E.StatusCode e * E.codeBit + c < 2 ^ 63 ->
  E.code (E.WithCode e c) = E.StatusCode e * E.codeBit + c.
Proof.
  intros He Hc Hb. cbn [E.WithCode E.code].
  rewrite (wrap_small (E.StatusCode e * E.codeBit)) by int_bounds.
  rewrite wrap_small by int_bounds. lia.
Qed.

Lemma status_and_code_WithStatusCode (e : E.ErrCode Any) s :
  0 <= E.code e < 2 ^ 63 ->
  0 <= s <= 92233720368546 ->
  E.StatusCode (E.WithStatusCode e s) = s
  /\ E.Code (E.WithStatusCode e s) = E.Code e.
Proof.
  intros He Hs.
  unfold E.StatusCode at 1, E.Code at 1.
  rewrite code_WithStatusCode by lia.
  apply split_pack; int_bounds.
Qed.

Lemma status_and_code_WithCode (e : E.ErrCode Any) c :
  0 <= E.code e < 2 ^ 63 - E.codeBit ->
  0 <= c < E.codeBit ->
  E.StatusCode (E.WithCode e c) = E.StatusCode e
  /\ E.Code (E.WithCode e c) = c.
Proof.
  intros He Hc.
  unfold E.StatusCode at 1, E.Code at 1.
  rewrite code_WithCode by int_bounds.
  apply split_pack; int_bounds.
Qed.

End ErrCodeProofs.

Section ErrCodeTheorems.

Context {Any : Type}.

Local Open Scope Z_scope.

Ltac int_bounds :=
  unfold E.StatusCode, E.Code, E.codeBit in *; cbn [E.code] in *;
  change (2 ^ 63) with 9223372036854775808 in *;
  Z.to_euclidean_division_equations; lia.

(** X1: [Froze] of [s*codeBit + c], computed in Go's [int] from a status
    and a five-digit code that fit it, has status [s] and code [c]. *)
Theorem Froze_packs_status_and_code (s c : Z) (m : string) :
  0 <= s -> 0 <= c < E.codeBit ->
  s * E.codeBit + c < 2 ^ 63 ->
  E.StatusCode
    (E.Froze (Any := Any) (E.wrap (E.wrap (s * E.codeBit) + c)) m) = s
  /\ E.Code
       (E.Froze (Any := Any) (E.wrap (E.wrap (s * E.codeBit) + c)) m) = c
  /\ E.Message
       (E.Froze (Any := Any) (E.wrap (E.wrap (s * E.codeBit) + c)) m) = m
  /\ E.Result
       (E.Froze (Any := Any) (E.wrap (E.wrap (s * E.codeBit) + c)) m)
     = None.
Proof.
  intros Hs Hc Hb. destruct (split_pack s c Hs Hc) as [Q R].
  rewrite (wrap_small (s * E.codeBit)) by int_bounds.
  rewrite wrap_small by int_bounds.
  repeat split; assumption.
Qed.

(** X2: [WithStatusCode] replaces the status and keeps the five-digit code,
    the message and the result. *)
Theorem WithStatusCode_replaces_status (e : E.ErrCode Any) (s : Z) :
  0 <= E.code e < 2 ^ 63 ->
  0 <= s <= 92233720368546 ->
  E.StatusCode (E.WithStatusCode e s) = s
  /\ E.Code (E.WithStatusCode e s) = E.Code e
  /\ E.Message (E.WithStatusCode e s) = E.Message e
  /\ E.Result (E.WithStatusCode e s) = E.Result e.
Proof.
  intros He Hs.
  destruct (status_and_code_WithStatusCode e s He Hs) as [Q R].
  repeat split; assumption.
Qed.

(** X3: [WithCode] replaces the five-digit code and keeps the status, the
    message and the result. *)
Theorem WithCode_replaces_code (e : E.ErrCode Any) (c : Z) :
  0 <= E.code e < 2 ^ 63 - E.codeBit ->
  0 <= c < E.codeBit ->
  E.Code (E.WithCode e c) = c
  /\ E.StatusCode (E.WithCode e c) = E.StatusCode e
  /\ E.Message (E.WithCode e c) = E.Message e
  /\ E.Result (E.WithCode e c) = E.Result e.
Proof.
  intros He Hc.
  destruct (status_and_code_WithCode e c He Hc) as [Q R].
  repeat split; assumption.
Qed.



(** X6: the last status set is the one that stays, and setting the status
    and setting the code commute. *)
Theorem WithStatusCode_WithCode_compose (e : E.ErrCode Any) (s1 s2 c : Z) :
  0 <= E.code e < 2 ^ 63 - E.codeBit ->
  0 <= s1 <= 92233720368546 ->
  0 <= s2 <= 92233720368546 ->
  0 <= c < E.codeBit ->
  E.WithStatusCode (E.WithStatusCode e s1) s2 = E.WithStatusCode e s2
  /\ E.WithCode (E.WithStatusCode e s1) c
     = E.WithStatusCode (E.WithCode e c) s1.
Proof.
  intros He H1 H2 Hc.
  assert (He' : 0 <= E.code e < 2 ^ 63) by (unfold E.codeBit in He; lia).
  destruct (status_and_code_WithStatusCode e s1 He' H1) as (S1 & C1).
  destruct (status_and_code_WithCode e c He Hc) as (S2 & C2).
  split.
  - unfold E.WithStatusCode at 1 3. rewrite C1. reflexivity.
  - apply ErrCode_eq; try reflexivity.
    assert (B : 0 <= E.Code e < E.codeBit) by int_bounds.
    rewrite code_WithCode, code_WithStatusCode, S1, C2.
    + reflexivity.
    + rewrite code_WithCode by int_bounds. int_bounds.
    + exact H1.
    + rewrite code_WithStatusCode by lia. unfold E.codeBit in *. lia.
    + exact (proj1 Hc).
    + rewrite S1. unfold E.codeBit in *.
      change (2 ^ 63) with 9223372036854775808. lia.
Qed.

(** X7: setting the status or the code an error already has gives the same
    error, whatever the sign of the stored code. *)
Theorem With_own_value_is_identity (e : E.ErrCode Any) :
  - 2 ^ 63 <= E.code e < 2 ^ 63 ->
  E.WithStatusCode e (E.StatusCode e) = e
  /\ E.WithCode e (E.Code e) = e.
Proof.
  intros He. split; apply ErrCode_eq; try reflexivity.
  - cbn [E.WithStatusCode E.code].
    rewrite (wrap_small (_ * _)) by int_bounds.
    rewrite wrap_small by int_bounds. int_bounds.
  - cbn [E.WithCode E.code].
    rewrite (wrap_small (_ * _)) by int_bounds.
    rewrite wrap_small by int_bounds. int_bounds.
Qed.

End ErrCodeTheorems.

Section AddCodeProofs.

Context {Any : Type}.

(** A loop of [AddCode] that runs to its end has met pairwise distinct codes,
    none of them in the map before; afterwards the map holds these codes
    too, each with the message of its key. *)
Lemma add_codes_inr (keys : list (E.ErrCode Any)) :
  forall temp temp',
    E.add_codes keys temp = inr temp' ->
    NoDup (map E.Code keys)
    /\ (forall x, In x keys -> temp (E.Code x) = None)
    /\ (forall k, temp' k = None <->
                  temp k = None /\ ~ In k (map E.Code keys))
    /\ (forall k v, temp' k = Some v ->
                    temp k = Some v
                    \/ exists x, In x keys /\ E.Code x = k
                                 /\ E.Message x = v).
Proof.
  induction keys as [|e keys IH]; intros temp temp'; cbn [E.add_codes].
  - intros E. inversion E; subst. split; [|split; [|split]].
    + constructor.
    + intros x [].
    + intros k. cbn. tauto.
    + auto.
  - destruct (temp (E.Code e)) as [v|] eqn:T; [discriminate|].
    intros E. apply IH in E. destruct E as (N & F & D & C).
    assert (Fe : ~ In (E.Code e) (map E.Code keys)).
    { intros I. apply in_map_iff in I. destruct I as (x & Ex & I).
      specialize (F x I). cbn in F. rewrite Ex, Z.eqb_refl in F.
      discriminate. }
    split; [|split; [|split]].
    + cbn. constructor; assumption.
    + intros x [<-|I]; [exact T|].
      specialize (F x I). cbn in F.
      destruct (Z.eqb (E.Code x) (E.Code e)); [discriminate|exact F].
    + intros k. rewrite D. cbn.
      destruct (Z.eqb_spec k (E.Code e)) as [->|Q].
      * split; [intros [H _]; discriminate|].
        intros [_ H]. exfalso. apply H. now left.
      * split; intros [H H']; (split; [exact H|]); intuition congruence.
    + intros k v H. apply C in H. cbn in H.
      destruct H as [H|(x & I & Ex & Mx)].
      * destruct (Z.eqb_spec k (E.Code e)) as [->|].
        -- inversion H; subst. right. exists e. cbn. auto.
        -- auto.
      * right. exists x. cbn. auto.
Qed.

(** A loop of [AddCode] over pairwise distinct codes that are not in the map
    runs to its end. *)
Lemma add_codes_NoDup (keys : list (E.ErrCode Any)) :
  forall temp,
    NoDup (map E.Code keys) ->
    (forall x, In x keys -> temp (E.Code x) = None) ->
    exists temp', E.add_codes keys temp = inr temp'.
Proof.
  induction keys as [|e keys IH]; intros temp N F; cbn [E.add_codes].
  - eauto.
  - rewrite (F e (or_introl eq_refl)).
    cbn in N. apply NoDup_cons_iff in N. destruct N as [Ne N].
    apply IH; [exact N|].
    intros x I. cbn.
    destruct (Z.eqb_spec (E.Code x) (E.Code e)) as [Q|Q].
    + exfalso. apply Ne. rewrite <- Q. now apply in_map.
    + apply F. now right.
Qed.

(** A loop of [AddCode] that stops early stops at the first key whose code
    is taken, and reports the message stored with it. *)
Lemma add_codes_inl (keys : list (E.ErrCode Any)) :
  forall temp err,
    E.add_codes keys temp = inl err ->
    exists pre e post v,
      keys = pre ++ e :: post
      /\ NoDup (map E.Code pre)
      /\ (forall x, In x pre -> temp (E.Code x) = None)
      /\ err = E.already_exists (E.Code e) v
      /\ (temp (E.Code e) = Some v
          \/ exists x, In x pre /\ E.Code x = E.Code e /\ E.Message x = v).
Proof.
  induction keys as [|e keys IH]; intros temp err; cbn [E.add_codes].
  - discriminate.
  - destruct (temp (E.Code e)) as [v|] eqn:T.
    + intros E. inversion E; subst.
      exists [], e, keys, v. repeat split; auto.
      * constructor.
      * intros x [].
    + intros E. apply IH in E.
      destruct E as (pre & e' & post & v & -> & N & F & -> & H).
      assert (Fe : ~ In (E.Code e) (map E.Code pre)).
      { intros I. apply in_map_iff in I. destruct I as (x & Ex & I).
        specialize (F x I). cbn in F. rewrite Ex, Z.eqb_refl in F.
        discriminate. }
      exists (e :: pre), e', post, v. repeat split.
      * cbn. constructor; assumption.
      * intros x [<-|I]; [exact T|].
        specialize (F x I). cbn in F.
        destruct (Z.eqb (E.Code x) (E.Code e)); [discriminate|exact F].
      * cbn in H. destruct H as [H|(x & I & Ex & Mx)].
        -- destruct (Z.eqb_spec (E.Code e') (E.Code e)) as [Q|Q].
           ++ inversion H; subst. right. exists e. cbn. auto.
           ++ auto.
        -- right. exists x. cbn. auto.
Qed.

(** The codes of two loops are pairwise distinct when those of each loop
    are and no code of the first comes back in the second. *)
Lemma NoDup_two_loops {A : Type} (l1 l2 : list A) :
  NoDup (l1 ++ l2) <->
  (forall a, In a l1 -> In a l2 -> False) /\ NoDup l2 /\ NoDup l1.
Proof.
  split.
  - intros H. split; [|split].
    + induction l1 as [|b l1 IH]; [intros a []|].
      cbn in H. apply NoDup_cons_iff in H. destruct H as [Hb H].
      intros a [<-|I] I2.
      * apply Hb. apply in_or_app. now right.
      * now apply (IH H a).
    + eapply NoDup_app_remove_l; eauto.
    + eapply NoDup_app_remove_r; eauto.
  - intros (H3 & H2 & H1). now apply NoDup_app.
Qed.

(** [AddCode] returns nil exactly when the codes of all the keys it goes
    through are pairwise distinct. *)
Lemma AddCode_None_NoDup (first m : list (E.ErrCode Any)) :
  E.AddCode first m = None <-> NoDup (map E.Code (first ++ m)).
Proof.
  unfold E.AddCode. rewrite map_app, NoDup_two_loops. split.
  - destruct (E.add_codes first (fun _ => None)) as [err|temp] eqn:E1;
      [discriminate|].
    destruct (E.add_codes m temp) as [err|temp'] eqn:E2; [discriminate|].
    intros _.
    apply add_codes_inr in E1. destruct E1 as (N1 & _ & D1 & _).
    apply add_codes_inr in E2. destruct E2 as (N2 & F2 & _).
    split; [|split; assumption].
    intros k I1 I2. apply in_map_iff in I2. destruct I2 as (x & <- & I2).
    specialize (F2 x I2). apply D1 in F2. tauto.
  - intros (D & N2 & N1).
    destruct (add_codes_NoDup first (fun _ => None) N1 (fun _ _ => eq_refl))
      as [temp E1].
    rewrite E1.
    apply add_codes_inr in E1. destruct E1 as (_ & _ & D1 & _).
    destruct (add_codes_NoDup m temp N2) as [temp' E2].
    + intros x I. apply D1. split; [reflexivity|].
      intros I1. apply (D _ I1). now apply in_map.
    + now rewrite E2.
Qed.

End AddCodeProofs.

Section AddCodeTheorems.

Context {Any : Type}.

Local Open Scope Z_scope.

(** X8: [AddCode] returns nil exactly when the five-digit codes of the keys
    of [m] are pairwise distinct and none of them is one of the service
    codes 10000 to 10004; the status part of a key plays no role. *)
Theorem AddCode_accepts_fresh_codes (first m : list (E.ErrCode Any)) :
  Permutation first E.service_codes ->
  E.AddCode first m = None <->
  NoDup (map E.Code m)
  /\ (forall e, In e m ->
                ~ In (E.Code e) [10000; 10001; 10002; 10003; 10004]).
Proof.
  intros P. rewrite AddCode_None_NoDup, map_app, NoDup_two_loops.
  assert (Q : Permutation (map E.Code first)
                          [10000; 10001; 10002; 10003; 10004]).
  { change [10000; 10001; 10002; 10003; 10004]
      with (map (E.Code (Any := Any)) E.service_codes).
    now apply Permutation_map. }
  assert (N : NoDup [10000; 10001; 10002; 10003; 10004]).
  { repeat constructor; cbn; lia. }
  split.
  - intros (D & N2 & _). split; [exact N2|].
    intros e I I'. apply (D (E.Code e)).
    + apply (Permutation_in _ (Permutation_sym Q) I').
    + now apply in_map.
  - intros (N2 & D). split; [|split].
    + intros a I I'. apply in_map_iff in I'. destruct I' as (e & <- & I').
      apply (D e I'). apply (Permutation_in _ Q I).
    + exact N2.
    + apply (Permutation_NoDup (Permutation_sym Q) N).
Qed.

(** X9: whether [AddCode] fails does not depend on the order in which the
    two [range] loops yield the keys. *)
Theorem AddCode_verdict_ignores_order
        (first first' m m' : list (E.ErrCode Any)) :
  Permutation first first' ->
  Permutation m m' ->
  E.AddCode first m = None <-> E.AddCode first' m' = None.
Proof.
  intros P1 P2. rewrite !AddCode_None_NoDup.
  assert (P : Permutation (map E.Code (first ++ m))
                          (map E.Code (first' ++ m'))).
  { apply Permutation_map. now apply Permutation_app. }
  split; intros H.
  - exact (Permutation_NoDup P H).
  - exact (Permutation_NoDup (Permutation_sym P) H).
Qed.

(** X10: when [AddCode] fails, its error names the first key of [m], in the
    order of the loop, whose five-digit code is already taken, with the
    message of the service code or of the earlier key that holds it. *)
Theorem AddCode_reports_first_collision
        (first m : list (E.ErrCode Any)) (err : error) :
  Permutation first E.service_codes ->
  E.AddCode first m = Some err ->
  exists pre e post holder,
    m = pre ++ e :: post
    /\ NoDup (map E.Code (E.service_codes ++ pre))
    /\ In holder (E.service_codes ++ pre)
    /\ E.Code holder = E.Code e
    /\ err = E.already_exists (E.Code e) (E.Message holder).
Proof.
  intros P. unfold E.AddCode.
  assert (Q : Permutation (map E.Code first)
                          (map E.Code (E.service_codes (Any := Any)))).
  { now apply Permutation_map. }
  assert (N : NoDup (map E.Code (E.service_codes (Any := Any)))).
  { repeat constructor; cbn; lia. }
  destruct (add_codes_NoDup first (fun _ => None)
              (Permutation_NoDup (Permutation_sym Q) N)
              (fun _ _ => eq_refl)) as [temp E1].
  rewrite E1. apply add_codes_inr in E1. destruct E1 as (_ & _ & D1 & C1).
  destruct (E.add_codes m temp) as [err'|temp'] eqn:E2; [|discriminate].
  intros E. inversion E; subst err'. clear E.
  apply add_codes_inl in E2.
  destruct E2 as (pre & e & post & v & -> & N2 & F2 & -> & H).
  assert (holder : exists x, In x (E.service_codes ++ pre)
                             /\ E.Code x = E.Code e /\ E.Message x = v).
  { destruct H as [H|(x & I & Ex & Mx)].
    - apply C1 in H. destruct H as [H|(x & I & Ex & Mx)]; [discriminate|].
      exists x. split; [|auto]. apply in_or_app. left.
      apply (Permutation_in _ P I).
    - exists x. split; [|auto]. apply in_or_app. now right. }
  destruct holder as (x & I & Ex & <-).
  exists pre, e, post, x. repeat split; try assumption.
  rewrite map_app. apply NoDup_app; [exact N|exact N2|].
  intros a Ia Ib. apply in_map_iff in Ib. destruct Ib as (y & <- & Ib).
  specialize (F2 y Ib). apply D1 in F2. destruct F2 as [_ F2].
  apply F2. apply (Permutation_in _ (Permutation_sym Q) Ia).
Qed.

End AddCodeTheorems.

Lemma Froze_packs_status_and_code_witness :
  E.StatusCode
    (E.Froze (Any := unit) (E.wrap (E.wrap (404 * E.codeBit) + 10002))
       "missing") = 404%Z
  /\ E.Code
       (E.Froze (Any := unit) (E.wrap (E.wrap (404 * E.codeBit) + 10002))
          "missing") = 10002%Z
  /\ E.Message
       (E.Froze (Any := unit) (E.wrap (E.wrap (404 * E.codeBit) + 10002))
          "missing") = "missing"
  /\ E.Result
       (E.Froze (Any := unit) (E.wrap (E.wrap (404 * E.codeBit) + 10002))
          "missing") = None.
Proof.
  apply (Froze_packs_status_and_code (Any := unit) 404 10002 "missing");
    vm_compute; try split; solve [discriminate | reflexivity].
Defined.

Lemma WithStatusCode_replaces_status_witness :
  E.StatusCode (E.WithStatusCode (Any := unit) E.ErrNotFound 410) = 410%Z
  /\ E.Code (E.WithStatusCode (Any := unit) E.ErrNotFound 410)
     = E.Code (Any := unit) E.ErrNotFound
  /\ E.Message (E.WithStatusCode (Any := unit) E.ErrNotFound 410)
     = E.Message (Any := unit) E.ErrNotFound
  /\ E.Result (E.WithStatusCode (Any := unit) E.ErrNotFound 410)
     = E.Result (Any := unit) E.ErrNotFound.
Proof.
  apply (WithStatusCode_replaces_status (Any := unit) E.ErrNotFound 410);
    vm_compute; try split; solve [discriminate | reflexivity].
Defined.

Lemma WithCode_replaces_code_witness :
  E.Code (E.WithCode (Any := unit) E.ErrNotFound 20001) = 20001%Z
  /\ E.StatusCode (E.WithCode (Any := unit) E.ErrNotFound 20001)
     = E.StatusCode (Any := unit) E.ErrNotFound
  /\ E.Message (E.WithCode (Any := unit) E.ErrNotFound 20001)
     = E.Message (Any := unit) E.ErrNotFound
  /\ E.Result (E.WithCode (Any := unit) E.ErrNotFound 20001)
     = E.Result (Any := unit) E.ErrNotFound.
Proof.
  apply (WithCode_replaces_code (Any := unit) E.ErrNotFound 20001);
    vm_compute; try split; solve [discriminate | reflexivity].
Defined.



Lemma WithStatusCode_WithCode_compose_witness :
  E.WithStatusCode (E.WithStatusCode (Any := unit) E.ErrNotFound 400) 500
  = E.WithStatusCode E.ErrNotFound 500
  /\ E.WithCode (E.WithStatusCode (Any := unit) E.ErrNotFound 400) 20001
     = E.WithStatusCode (E.WithCode E.ErrNotFound 20001) 400.
Proof.
  apply (WithStatusCode_WithCode_compose (Any := unit) E.ErrNotFound
           400 500 20001);
    vm_compute; try split; solve [discriminate | reflexivity].
Defined.

Lemma With_own_value_is_identity_witness :
  E.WithStatusCode (Any := unit) E.ErrParseContent
                   (E.StatusCode (Any := unit) E.ErrParseContent)
  = E.ErrParseContent
  /\ E.WithCode (Any := unit) E.ErrParseContent
                (E.Code (Any := unit) E.ErrParseContent)
     = E.ErrParseContent.
Proof.
  apply (With_own_value_is_identity (Any := unit) E.ErrParseContent);
    vm_compute; try split; solve [discriminate | reflexivity].
Defined.

Lemma AddCode_accepts_fresh_codes_witness :
  E.AddCode (Any := unit) E.service_codes
            [E.Froze 40010005 "a"; E.Froze 50010006 "b"] = None <->
  NoDup (map (E.Code (Any := unit))
             [E.Froze 40010005 "a"; E.Froze 50010006 "b"])
  /\ (forall e, In e [E.Froze 40010005 "a"; E.Froze 50010006 "b"] ->
                ~ In (E.Code (Any := unit) e)
                     [10000; 10001; 10002; 10003; 10004]%Z).
Proof.
  apply (AddCode_accepts_fresh_codes (Any := unit) E.service_codes).
  apply Permutation_refl.
Defined.

Lemma AddCode_verdict_ignores_order_witness :
  E.AddCode (Any := unit) E.service_codes
            [E.Froze 40010005 "a"; E.Froze 50010005 "b"] = None <->
  E.AddCode (Any := unit) (rev E.service_codes)
            [E.Froze 50010005 "b"; E.Froze 40010005 "a"] = None.
Proof.
  apply (AddCode_verdict_ignores_order (Any := unit)).
  - apply Permutation_rev.
  - apply perm_swap.
Defined.

Lemma AddCode_reports_first_collision_witness :
  exists pre e post holder,
    [E.Froze (Any := unit) 40010005 "a"; E.Froze 50010001 "b"]
    = pre ++ e :: post
    /\ NoDup (map E.Code (E.service_codes ++ pre))
    /\ In holder (E.service_codes ++ pre)
    /\ E.Code holder = E.Code e
    /\ "error code 10001(请求参数不正确) already exists"
       = E.already_exists (E.Code e) (E.Message holder).
Proof.
  apply (AddCode_reports_first_collision (Any := unit) E.service_codes).
  - apply Permutation_refl.
  - reflexivity.
Defined.

(** ** Properties of the machine id (package id) *)

Section MachineIDProofs.

Variable IsLoopback : ID.IP -> bool.
Variable To4 : ID.IP -> option ID.IP.

Local Open Scope Z_scope.

Lemma range_addrs_Ok addrs ip4 :
  ID.range_addrs IsLoopback To4 addrs = Ok ip4 <->
  exists pre ip mask post,
    addrs = pre ++ ID.IPNet ip mask :: post
    /\ forallb (ID.skipped IsLoopback To4) pre = true
    /\ IsLoopback ip = false
    /\ To4 ip = Some ip4.
Proof.
  induction addrs as [|a addrs IH]; cbn [ID.range_addrs].
  - split; [discriminate|].
    intros (pre & ip & mask & post & E & _). now destruct pre.
  - split.
    + destruct a as [ip mask|name].
      * destruct (IsLoopback ip) eqn:L.
        -- intros H. apply IH in H.
           destruct H as (pre & ip' & mask' & post & -> & S & L' & T).
           exists (ID.IPNet ip mask :: pre), ip', mask', post.
           cbn. rewrite L, S. auto.
        -- destruct (To4 ip) as [ip4'|] eqn:T.
           ++ intros H. inversion H; subst.
              exists [], ip, mask, addrs. auto.
           ++ intros H. apply IH in H.
              destruct H as (pre & ip' & mask' & post & -> & S & L' & T').
              exists (ID.IPNet ip mask :: pre), ip', mask', post.
              cbn. rewrite L, T, S. auto.
      * intros H. apply IH in H.
        destruct H as (pre & ip' & mask' & post & -> & S & L' & T').
        exists (ID.OtherAddr name :: pre), ip', mask', post. cbn. auto.
    + intros (pre & ip & mask & post & E & S & L & T).
      destruct pre as [|b pre]; cbn in E; inversion E; subst.
      * now rewrite L, T.
      * cbn in S. apply andb_true_iff in S. destruct S as [Sb S].
        assert (R : ID.range_addrs IsLoopback To4
                      (pre ++ ID.IPNet ip mask :: post) = Ok ip4).
        { apply IH. exists pre, ip, mask, post. auto. }
        destruct b as [ip' mask'|name]; [|exact R].
        cbn in Sb. destruct (IsLoopback ip'); [exact R|].
        destruct (To4 ip'); [discriminate|exact R].
Qed.

Lemma range_addrs_Err addrs err :
  ID.range_addrs IsLoopback To4 addrs = Err err <->
  forallb (ID.skipped IsLoopback To4) addrs = true
  /\ err = "no private ip address"%string.
Proof.
  induction addrs as [|a addrs IH]; cbn [ID.range_addrs forallb].
  - split.
    + intros H. inversion H. auto.
    + intros [_ ->]. reflexivity.
  - destruct a as [ip mask|name]; cbn [ID.skipped].
    + destruct (IsLoopback ip); [exact IH|].
      destruct (To4 ip); [|exact IH].
      cbn. split; [discriminate|intros [? _]; discriminate].
    + exact IH.
Qed.

End MachineIDProofs.

Section MachineIDTheorems.

Variable IsLoopback : ID.IP -> bool.
Variable To4 : ID.IP -> option ID.IP.

Local Open Scope Z_scope.

(** X11: [lower16BitIPV4] returns the IPv4 form of the first address, in the
    order of [net.InterfaceAddrs], that is an IP network, is not a loopback
    and has an IPv4 form. *)
Theorem lower16BitIPV4_returns_first_usable
        (ia : result (list ID.Addr)) (ip4 : ID.IP) :
  ID.lower16BitIPV4 IsLoopback To4 ia = Ok ip4 <->
  exists pre ip mask post,
    ia = Ok (pre ++ ID.IPNet ip mask :: post)
    /\ forallb (ID.skipped IsLoopback To4) pre = true
    /\ IsLoopback ip = false
    /\ To4 ip = Some ip4.
Proof.
  destruct ia as [addrs|e]; cbn [ID.lower16BitIPV4].
  - rewrite range_addrs_Ok. split.
    + intros (pre & ip & mask & post & -> & H). eauto 8.
    + intros (pre & ip & mask & post & E & H). inversion E; subst. eauto 8.
  - split; [discriminate|].
    intros (pre & ip & mask & post & E & _). discriminate.
Qed.

(** X12: [lower16BitIPV4] fails either with the error of
    [net.InterfaceAddrs], or, when every address is passed over, with
    "no private ip address". *)
Theorem lower16BitIPV4_fails_when_all_skipped
        (ia : result (list ID.Addr)) (err : error) :
  ID.lower16BitIPV4 IsLoopback To4 ia = Err err <->
  ia = Err err
  \/ exists addrs,
       ia = Ok addrs
       /\ forallb (ID.skipped IsLoopback To4) addrs = true
       /\ err = "no private ip address"%string.
Proof.
  destruct ia as [addrs|e]; cbn [ID.lower16BitIPV4].
  - rewrite range_addrs_Err. split.
    + intros [S E]. right. eauto.
    + intros [H|(addrs' & H & S & E)]; [discriminate|].
      inversion H; subst. auto.
  - split.
    + intros H. inversion H. now left.
    + intros [H|(addrs' & H & _)]; [now inversion H|discriminate].
Qed.

(** X13: on a four-byte address [machineID] is the third byte times 256 plus
    the fourth, without wrap-around: below 65536, with the third byte as
    its high byte and the fourth as its low byte. *)
Theorem machineID_packs_last_two_bytes
        (ia : result (list ID.Addr)) (b0 b1 b2 b3 : Z) :
  ID.lower16BitIPV4 IsLoopback To4 ia = Ok [b0; b1; b2; b3] ->
  0 <= b2 < 256 ->
  0 <= b3 < 256 ->
  exists id,
    ID.machineID IsLoopback To4 ia = Some (id, None)
    /\ id = b2 * 256 + b3
    /\ 0 <= id < 65536
    /\ Z.shiftr id 8 = b2
    /\ Z.land id 255 = b3.
Proof.
  intros H H2 H3. unfold ID.machineID. rewrite H. cbn [nth_error].
  eexists. split; [reflexivity|].
  assert (E : ID.uint16 (ID.uint16 (Z.shiftl (ID.uint16 b2) 8)
                         + ID.uint16 b3) = b2 * 256 + b3).
  { unfold ID.uint16. change (2 ^ 16) with 65536.
    rewrite (Z.mod_small b2), (Z.mod_small b3) by lia.
    rewrite Z.shiftl_mul_pow2 by lia. change (2 ^ 8) with 256.
    rewrite (Z.mod_small (b2 * 256)) by lia.
    apply Z.mod_small. lia. }
  rewrite E. split; [reflexivity|]. split; [lia|]. split.
  - rewrite Z.shiftr_div_pow2 by lia. change (2 ^ 8) with 256.
    Z.to_euclidean_division_equations. lia.
  - change 255 with (Z.ones 8). rewrite Z.land_ones by lia.
    change (2 ^ 8) with 256.
    Z.to_euclidean_division_equations. lia.
Qed.

(** X14: when [To4] hands out only four-byte slices, as the standard library
    does, [machineID] never indexes out of range: it returns an id and nil,
    or 0 and the error of [lower16BitIPV4]. *)
Theorem machineID_never_panics (ia : result (list ID.Addr)) :
  (forall ip ip4, To4 ip = Some ip4 -> length ip4 = 4%nat) ->
  (exists id, ID.machineID IsLoopback To4 ia = Some (id, None))
  \/ (exists err,
         ID.lower16BitIPV4 IsLoopback To4 ia = Err err
         /\ ID.machineID IsLoopback To4 ia = Some (0, Some err)).
Proof.
  intros L. unfold ID.machineID.
  destruct (ID.lower16BitIPV4 IsLoopback To4 ia) as [ip4|err] eqn:E.
  - left.
    assert (T : exists ip, To4 ip = Some ip4).
    { destruct ia as [addrs|e]; [|discriminate].
      apply range_addrs_Ok in E.
      destruct E as (_ & ip & _ & _ & _ & _ & _ & T). eauto. }
    destruct T as [ip T]. apply L in T.
    destruct ip4 as [|b0 [|b1 [|b2 [|b3 [|]]]]]; try discriminate.
    cbn. eauto.
  - right. eauto.
Qed.

End MachineIDTheorems.

Lemma machineID_packs_last_two_bytes_witness :
  exists id,
    ID.machineID ID.starts_with_127 ID.four_bytes (Ok ID.host_addrs)
    = Some (id, None)
    /\ id = (4 * 256 + 210)%Z
    /\ (0 <= id < 65536)%Z
    /\ Z.shiftr id 8 = 4%Z
    /\ Z.land id 255 = 210%Z.
Proof.
  apply (machineID_packs_last_two_bytes ID.starts_with_127 ID.four_bytes
           (Ok ID.host_addrs) 8 8 4 210);
    [reflexivity|lia|lia].
Defined.

Lemma machineID_never_panics_witness :
  (exists id,
      ID.machineID ID.starts_with_127 ID.four_bytes (Ok ID.host_addrs)
      = Some (id, None))
  \/ (exists err,
         ID.lower16BitIPV4 ID.starts_with_127 ID.four_bytes
                           (Ok ID.host_addrs) = Err err
         /\ ID.machineID ID.starts_with_127 ID.four_bytes (Ok ID.host_addrs)
            = Some (0%Z, Some err)).
Proof.
  apply (machineID_never_panics ID.starts_with_127 ID.four_bytes).
  intros ip ip4. unfold ID.four_bytes.
  destruct (Nat.eqb_spec (length ip) 4) as [E|]; [|discriminate].
  intros H. inversion H; subst. exact E.
Defined.

(** ** More on the loops and on the pool of parameters (package async) *)

Lemma env_ctx_live acts ctx :
  Done ctx = false ->
  ~ In Cancel acts ->
  Done (env_ctx acts ctx) = false.
Proof.
  unfold env_ctx. revert ctx.
  induction acts as [|a acts IH]; intros ctx D N; cbn; [exact D|].
  apply IH.
  - destruct a; cbn; try exact D. exfalso. apply N. now left.
  - intros I. apply N. now right.
Qed.

(** On a stream that stays open the channel holds what it held, followed by
    what the broker sent. *)
Lemma env_chan_open acts :
  forall ch,
    closed ch = false ->
    ~ In CloseStream acts ->
    closed (env_chan acts ch) = false
    /\ pending (env_chan acts ch) = pending ch ++ sent acts.
Proof.
  unfold env_chan.
  induction acts as [|a acts IH]; intros ch O N; cbn [fold_left].
  - cbn. now rewrite app_nil_r.
  - assert (N' : ~ In CloseStream acts) by (intros I; apply N; now right).
    destruct a as [|d|].
    + cbn [act_chan]. destruct (IH ch O N') as [C P]. now split.
    + cbn [act_chan]. rewrite O.
      destruct (IH {| pending := pending ch ++ [d]; closed := false |}
                   eq_refl N') as [C P].
      split; [exact C|]. rewrite P. cbn. now rewrite <- app_assoc.
    + exfalso. apply N. now left.
Qed.

(** X15: once a call of [Consume] has succeeded, the loop of [Subscribe]
    calls [Consume] no more: all it does from then on is hand deliveries to
    the pool, whatever happens to the stream. *)
Theorem Subscribe_never_reopens_stream {Param : Type}
        (channel : Channel) (q : string) (fuel calls : nat) (ctx : Context)
        (r : round) (rest : list round) (ch : Chan) :
  Done (env_ctx (env r) ctx) = false ->
  Consume channel calls q = Ok ch ->
  exists st gos,
    @Subscribe_loop Param (S fuel) channel q calls ctx (r :: rest)
    = (st,
       EvConsume q ("consumer." ++ q)%string false false false false None
       :: gos)
    /\ Forall (fun e => is_go e = true) gos.
Proof.
  intros D C. cbn [Subscribe_loop]. rewrite D, C.
  destruct (handleMessage (env_ctx (env r) ctx) ch rest)
    as [[[st evs] ctx'] rest'] eqn:E.
  pose proof (handleMessage_events_go _ _ _ _ _ _ _ E) as G.
  destruct st.
  - pose proof (handleMessage_returned_done _ _ _ _ _ _ E) as D'.
    assert (L : snd (@Subscribe_loop Param fuel channel q (S calls)
                       ctx' rest') = []).
    { destruct fuel as [|fuel]; [reflexivity|].
      destruct rest' as [|r' rest']; [reflexivity|].
      now rewrite Subscribe_loop_done by now apply env_ctx_done. }
    destruct (Subscribe_loop fuel channel q (S calls) ctx' rest')
      as [st' evs'].
    cbn in L. subst evs'. rewrite app_nil_r. eauto.
  - eauto.
Qed.

Lemma Subscribe_never_reopens_stream_witness :
  exists st gos,
    @Subscribe_loop string 4
      {| Consume := fun _ _ => Ok Demo.closed_stream |} "tasks" 0 Demo.live
      [Demo.idle CaseDone; Demo.idle CaseDone; cancel_round; quiet_round]
    = (st,
       EvConsume "tasks" ("consumer." ++ "tasks")%string
                 false false false false None
       :: gos)
    /\ Forall (fun e => is_go e = true) gos.
Proof.
  exact (Subscribe_never_reopens_stream
           {| Consume := fun _ _ => Ok Demo.closed_stream |} "tasks" 3 0
           Demo.live (Demo.idle CaseDone)
           [Demo.idle CaseDone; cancel_round; quiet_round]
           Demo.closed_stream eq_refl eq_refl).
Defined.

(** X16: on a stream that the broker does not close, [handleMessage] hands
    the deliveries to the pool in the order of the stream, each one once
    and none that was not sent: what it has handed over is a prefix of what
    the channel held followed by what the broker sent. *)
Theorem handleMessage_submits_in_order {Param : Type}
        (script : list round) :
  forall (ctx : Context) (ch : Chan),
    closed ch = false ->
    Forall (fun r => ~ In CloseStream (env r)) script ->
    exists rest,
      pending ch ++ flat_map (fun r => sent (env r)) script
      = map snd
          (submitted
             (snd (fst (fst (@handleMessage Param ctx ch script)))))
        ++ rest.
Proof.
  induction script as [|r script IH]; intros ctx ch O F.
  - cbn. eauto.
  - apply Forall_cons_iff in F. destruct F as [Fr F].
    destruct (env_chan_open (env r) ch O Fr) as [O1 P1].
    cbn [handleMessage flat_map].
    rewrite app_assoc, <- P1.
    unfold recv. rewrite O1.
    destruct (pending (env_chan (env r) ch)) as [|v tl] eqn:Q.
    + destruct (Done (env_ctx (env r) ctx)).
      * cbn. eauto.
      * destruct (IH (env_ctx (env r) ctx) (env_chan (env r) ch) O1 F)
          as [rest E].
        rewrite Q in E. eauto.
    + destruct (IH (env_ctx (env r) ctx)
                   {| pending := tl; closed := false |} eq_refl F)
        as [rest E].
      cbn [pending] in E.
      destruct (handleMessage (env_ctx (env r) ctx)
                  {| pending := tl; closed := false |} script)
        as [[[st evs] ctx'] rest'] eqn:H.
      cbn [fst snd] in E.
      destruct (Done (env_ctx (env r) ctx)); [destruct (choice r)|].
      * cbn. eauto.
      * cbn. exists rest. now rewrite <- E.
      * cbn. exists rest. now rewrite <- E.
Qed.

Lemma handleMessage_submits_in_order_witness :
  exists rest,
    pending (Demo.stream [Demo.delivery 1 "ping"])
    ++ flat_map (fun r => sent (env r))
         [{| env := [Deliver (Demo.delivery 2 "x")]; choice := CaseRecv |};
          Demo.idle CaseRecv]
    = map snd
        (submitted
           (snd (fst (fst
              (@handleMessage string Demo.live
                 (Demo.stream [Demo.delivery 1 "ping"])
                 [{| env := [Deliver (Demo.delivery 2 "x")];
                     choice := CaseRecv |};
                  Demo.idle CaseRecv])))))
      ++ rest.
Proof.
  apply (handleMessage_submits_in_order (Param := string)).
  - reflexivity.
  - repeat constructor; cbn; intuition discriminate.
Defined.

Lemma Subscribe_loop_retries {Param : Type} (channel : Channel) (q : string)
      (script : list round) :
  (forall k, exists err, Consume channel k q = Err err) ->
  Forall (fun r => ~ In Cancel (env r)) script ->
  forall fuel calls ctx,
    Done ctx = false ->
    length script <= fuel ->
    fst (@Subscribe_loop Param fuel channel q calls ctx script) = Running
    /\ length (filter is_consume
                 (snd (@Subscribe_loop Param fuel channel q calls ctx
                         script)))
       = length script
    /\ length (snd (@Subscribe_loop Param fuel channel q calls ctx script))
       = 2 * length script
    /\ submitted (snd (@Subscribe_loop Param fuel channel q calls ctx
                         script)) = [].
Proof.
  intros B. induction script as [|r script IH]; intros F fuel calls ctx D L.
  - destruct fuel; cbn; auto.
  - destruct fuel as [|fuel]; [cbn in L; lia|].
    apply Forall_cons_iff in F. destruct F as [Fr F].
    cbn [Subscribe_loop]. rewrite (env_ctx_live _ _ D Fr).
    destruct (B calls) as [err ->].
    specialize (IH F fuel (S calls) (env_ctx (env r) ctx)
                   (env_ctx_live _ _ D Fr)).
    destruct (Subscribe_loop fuel channel q (S calls)
                (env_ctx (env r) ctx) script) as [st evs].
    cbn in *. destruct IH as (A & C & N & G); [lia|].
    split; [exact A|]. split; [lia|]. split; [lia|exact G].
Qed.



(** ** Handlers that do not return: the protocol of [handle] and [Subscribe] *)

Section FaultProofs.

Context {Param : Type} (rt : Runtime Param) (t : taskConsumer Param)
        (run : Dispatcher (Param := Param)).

(** With a dispatcher that always returns, [handle_with] is [handle]. *)
Lemma handle_with_returning ctx d :
  runState (handle_with rt t (fun c p => Returns (manager t c p)) ctx d) []
  = (Returns (handle_result rt t ctx d), handle_trace rt t ctx d).
Proof.
  unfold handle_result, handle_trace, handle_with, handle.
  destruct (marshal t d) as [m|e]; cbn.
  - destruct (handler t (Payload m) (pool_object rt)) as [p|e]; cbn.
    + destruct (validator t p) as [e|]; cbn.
      * destruct (reject_answer rt d false); reflexivity.
      * destruct (manager t _ p) as [e|]; cbn; [|reflexivity].
        destruct (reject_answer rt d false); reflexivity.
    + destruct (reject_answer rt d false); reflexivity.
  - destruct (reject_answer rt d false); reflexivity.
Qed.

(** The three paths that end before the dispatch. *)
Lemma handle_with_before_dispatch ctx d :
  (exists err, marshal t d = Err err)
  \/ (exists m err,
        marshal t d = Ok m
        /\ handler t (Payload m) (pool_object rt) = Err err)
  \/ (exists m p err,
        marshal t d = Ok m
        /\ handler t (Payload m) (pool_object rt) = Ok p
        /\ validator t p = Some err) ->
  exists pre,
    runState (handle_with rt t run ctx d) []
    = (Returns (reject_answer rt d false), pre ++ [EvReject d false])
    /\ filter is_terminal pre = []
    /\ filter is_run pre = []
    /\ filter is_put pre = []
    /\ (length (filter is_get pre) <= 1)%nat.
Proof.
  unfold handle_with.
  intros [[e H]|[(m & e & H1 & H2)|(m & p & e & H1 & H2 & H3)]].
  - rewrite H. cbn. exists [LogError "unmarshal failed" e].
    destruct (reject_answer rt d false); cbn;
      repeat split; try reflexivity; lia.
  - rewrite H1. cbn. rewrite H2. cbn.
    exists [LogDebug (Payload m); EvGet; LogError "unmarshal failed" e].
    destruct (reject_answer rt d false); cbn;
      repeat split; try reflexivity; lia.
  - rewrite H1. cbn. rewrite H2. cbn. rewrite H3. cbn.
    exists [LogDebug (Payload m); EvGet;
            LogError "validate struct failed" e].
    destruct (reject_answer rt d false); cbn;
      repeat split; try reflexivity; lia.
Qed.

(** The paths through the dispatch, one for each ending of [Run]. *)
Lemma handle_with_dispatch ctx d m p :
  marshal t d = Ok m ->
  handler t (Payload m) (pool_object rt) = Ok p ->
  validator t p = None ->
  runState (handle_with rt t run ctx d) []
  = match run (With ctx "uuid" (UUID m)) p with
    | Returns (Some err) =>
        (Returns (reject_answer rt d false),
         [LogDebug (Payload m); EvGet; EvRun p; EvPut p;
          LogError "run failed" err; EvReject d false])
    | Returns None =>
        (Returns (ack_answer rt d false),
         [LogDebug (Payload m); EvGet; EvRun p; EvPut p; EvAck d false])
    | Panics fault =>
        (Panics fault, [LogDebug (Payload m); EvGet; EvRun p])
    | Hangs => (Hangs, [LogDebug (Payload m); EvGet; EvRun p])
    end.
Proof.
  intros H1 H2 H3. unfold handle_with. rewrite H1. cbn. rewrite H2. cbn.
  rewrite H3. cbn.
  destruct (run (With ctx "uuid" (UUID m)) p) as [[e|]|f|]; cbn;
    try reflexivity.
  destruct (reject_answer rt d false); reflexivity.
Qed.

(** Every call of [handle] ends before the dispatch or goes through it. *)
Lemma handle_with_cases (d : Delivery) :
  ((exists err, marshal t d = Err err)
   \/ (exists m err,
         marshal t d = Ok m
         /\ handler t (Payload m) (pool_object rt) = Err err)
   \/ (exists m p err,
         marshal t d = Ok m
         /\ handler t (Payload m) (pool_object rt) = Ok p
         /\ validator t p = Some err))
  \/ (exists m p,
        marshal t d = Ok m
        /\ handler t (Payload m) (pool_object rt) = Ok p
        /\ validator t p = None).
Proof.
  destruct (marshal t d) as [m|e]; [|left; left; eauto].
  destruct (handler t (Payload m) (pool_object rt)) as [p|e] eqn:Hh;
    [|left; right; left; eauto].
  destruct (validator t p) as [e|] eqn:Hv.
  - left; right; right. eauto 6.
  - right. eauto 6.
Qed.

(** The wrapper of the pool adds a log line at most. *)
Lemma pool_task_trace ctx v :
  runState (pool_task rt t run ctx v) []
  = (match handle_with_ending rt t run ctx v with
     | Returns _ => Returns tt
     | Panics _ => Returns tt
     | Hangs => Hangs
     end,
     handle_with_trace rt t run ctx v ++
     match handle_with_ending rt t run ctx v with
     | Returns (Some err) => [LogError "handle failed" err]
     | Returns None => []
     | Panics fault => [LogError "recover" fault]
     | Hangs => []
     end).
Proof.
  unfold pool_task, handle_with_ending, handle_with_trace. cbn.
  destruct (runState (handle_with rt t run ctx v) []) as [[[e|]|f|] tr];
    cbn; try reflexivity; now rewrite app_nil_r.
Qed.

(** [handle] does not return only when [Run] does not. *)
Lemma handle_with_ending_Hangs ctx d :
  handle_with_ending rt t run ctx d = Hangs ->
  exists c p, run c p = Hangs.
Proof.
  unfold handle_with_ending.
  destruct (handle_with_cases d) as [B|(m & p & H1 & H2 & H3)].
  - destruct (handle_with_before_dispatch ctx d B) as (pre & E & _).
    rewrite E. discriminate.
  - rewrite (handle_with_dispatch ctx d m p H1 H2 H3).
    destruct (run (With ctx "uuid" (UUID m)) p) as [[e|]|f|] eqn:R;
      try discriminate.
    eauto.
Qed.

End FaultProofs.

Lemma handleMessage_running_while_live {Param : Type} (script : list round) :
  forall ctx ch,
    Done ctx = false ->
    Forall (fun r => ~ In Cancel (env r)) script ->
    fst (fst (fst (@handleMessage Param ctx ch script))) = Running.
Proof.
  induction script as [|r script IH]; intros ctx ch D F; [reflexivity|].
  apply Forall_cons_iff in F. destruct F as [Fr F].
  cbn [handleMessage]. rewrite (env_ctx_live _ _ D Fr).
  specialize (IH (env_ctx (env r) ctx)).
  destruct (recv (env_chan (env r) ch)) as [[v ch']|].
  - specialize (IH ch' (env_ctx_live _ _ D Fr) F).
    destruct (handleMessage (env_ctx (env r) ctx) ch' script)
      as [[[st evs] ctx'] rest'].
    exact IH.
  - apply IH; [now apply env_ctx_live|exact F].
Qed.

(** While the context is not canceled the loop of [Subscribe] goes on. *)
Lemma Subscribe_loop_running_while_live {Param : Type} channel q fuel :
  forall calls ctx script,
    Done ctx = false ->
    Forall (fun r => ~ In Cancel (env r)) script ->
    fst (@Subscribe_loop Param fuel channel q calls ctx script) = Running.
Proof.
  induction fuel as [|fuel IH]; intros calls ctx script D F; [reflexivity|].
  destruct script as [|r rest]; [reflexivity|].
  apply Forall_cons_iff in F. destruct F as [Fr F].
  cbn [Subscribe_loop]. rewrite (env_ctx_live _ _ D Fr).
  destruct (Consume channel calls q) as [ch|err].
  - pose proof (handleMessage_running_while_live (Param := Param) rest
                  (env_ctx (env r) ctx) ch (env_ctx_live _ _ D Fr) F) as H.
    destruct (handleMessage (env_ctx (env r) ctx) ch rest)
      as [[[st evs] ctx'] rest'].
    cbn in H. subst st. reflexivity.
  - specialize (IH (S calls) (env_ctx (env r) ctx) rest
                   (env_ctx_live _ _ D Fr) F).
    destruct (Subscribe_loop fuel channel q (S calls)
                (env_ctx (env r) ctx) rest) as [st evs].
    exact IH.
Qed.

Lemma Subscribe_with_fields {Param : Type} (rt : Runtime Param)
      (t : taskConsumer Param) (run : Dispatcher) channel q ctx script :
  loop_events_with (Subscribe_with rt t run channel q ctx script)
  = snd (Subscribe_loop (length script) channel q 0 ctx script)
  /\ tasks_with (Subscribe_with rt t run channel q ctx script)
     = map (fun '(c, v) => runState (pool_task rt t run c v) [])
           (submitted
              (snd (Subscribe_loop (Param := Param)
                      (length script) channel q 0 ctx script)))
  /\ returned_with (Subscribe_with rt t run channel q ctx script)
     = match Wait_all
               (fst (Subscribe_loop (Param := Param)
                       (length script) channel q 0 ctx script))
               (map fst
                  (tasks_with
                     (Subscribe_with rt t run channel q ctx script))) with
       | Some _ => Some None
       | None => None
       end.
Proof.
  unfold Subscribe_with.
  now destruct (Subscribe_loop (length script) channel q 0 ctx script).
Qed.

(** C1, as the claim has it, fails: when the handler panics inside
    [t.manager.Run], [handle] is left with neither [Ack] nor [Reject]
    called. *)
Lemma handle_leaves_delivery_pending :
  ~ (forall (rt : Runtime string) t run ctx d,
        (filter is_ack (handle_with_trace rt t run ctx d) = [EvAck d false]
         /\ filter is_reject (handle_with_trace rt t run ctx d) = [])
        \/ (filter is_ack (handle_with_trace rt t run ctx d) = []
            /\ filter is_reject (handle_with_trace rt t run ctx d)
               = [EvReject d false])).
Proof.
  intros H.
  specialize (H Demo.runtime Demo.consumer faulty_run Demo.live
                (Demo.delivery 7 "crash")).
  vm_compute in H. destruct H as [[H _]|[_ H]]; discriminate H.
Qed.

(** C1, amended: when [handle] returns it has made exactly one terminal
    broker call, one [Ack(false)] and no [Reject] or one [Reject(false)] and
    no [Ack], and it returns on every path on which [Run] returns; when
    [Run] panics or never returns, [handle] has made no terminal call; the
    wrapper of the pool adds none. *)
Theorem handle_one_terminal_call_if_handler_returns {Param : Type}
        (rt : Runtime Param) (t : taskConsumer Param)
        (run : Dispatcher (Param := Param)) (ctx : Context) (d : Delivery) :
  (forall r,
      handle_with_ending rt t run ctx d = Returns r ->
      (filter is_ack (handle_with_trace rt t run ctx d) = [EvAck d false]
       /\ filter is_reject (handle_with_trace rt t run ctx d) = [])
      \/ (filter is_ack (handle_with_trace rt t run ctx d) = []
          /\ filter is_reject (handle_with_trace rt t run ctx d)
             = [EvReject d false]))
  /\ ((forall r, handle_with_ending rt t run ctx d <> Returns r) ->
      filter is_terminal (handle_with_trace rt t run ctx d) = []
      /\ exists m p,
           marshal t d = Ok m
           /\ handler t (Payload m) (pool_object rt) = Ok p
           /\ validator t p = None
           /\ run (With ctx "uuid" (UUID m)) p
              = handle_with_ending rt t run ctx d)
  /\ ((forall c p, exists r, run c p = Returns r) ->
      exists r, handle_with_ending rt t run ctx d = Returns r)
  /\ filter is_terminal (snd (runState (pool_task rt t run ctx d) []))
     = filter is_terminal (handle_with_trace rt t run ctx d).
Proof.
  unfold handle_with_ending, handle_with_trace.
  destruct (handle_with_cases rt t d) as [B|(m & p & H1 & H2 & H3)].
  - destruct (handle_with_before_dispatch rt t run ctx d B)
      as (pre & E & T & _).
    destruct (filter_terminal_nil _ T) as [Ta Tr].
    rewrite pool_task_trace.
    unfold handle_with_ending, handle_with_trace. rewrite E. cbn [fst snd].
    split; [|split; [|split]].
    + intros r _. right. rewrite !filter_app, Ta, Tr. auto.
    + intros N. exfalso. now apply (N (reject_answer rt d false)).
    + eauto.
    + rewrite !filter_app.
      destruct (reject_answer rt d false); cbn; now rewrite ?app_nil_r.
  - rewrite pool_task_trace.
    unfold handle_with_ending, handle_with_trace.
    rewrite (handle_with_dispatch rt t run ctx d m p H1 H2 H3).
    destruct (run (With ctx "uuid" (UUID m)) p) as [[e|]|f|] eqn:R;
      cbn [fst snd].
    + split; [|split; [|split]].
      * intros r _. right. split; reflexivity.
      * intros N. exfalso. now apply (N (reject_answer rt d false)).
      * eauto.
      * destruct (reject_answer rt d false); reflexivity.
    + split; [|split; [|split]].
      * intros r _. left. split; reflexivity.
      * intros N. exfalso. now apply (N (ack_answer rt d false)).
      * eauto.
      * destruct (ack_answer rt d false); reflexivity.
    + split; [|split; [|split]].
      * discriminate.
      * intros _. split; [reflexivity|]. exists m, p. auto.
      * intros A. destruct (A (With ctx "uuid" (UUID m)) p) as [r R'].
        rewrite R in R'. discriminate.
      * reflexivity.
    + split; [|split; [|split]].
      * discriminate.
      * intros _. split; [reflexivity|]. exists m, p. auto.
      * intros A. destruct (A (With ctx "uuid" (UUID m)) p) as [r R'].
        rewrite R in R'. discriminate.
      * reflexivity.
Qed.

Lemma handle_one_terminal_call_if_handler_returns_witness :
  ((filter is_ack
      (handle_with_trace Demo.runtime Demo.consumer faulty_run Demo.live
         (Demo.delivery 1 "ping"))
    = [EvAck (Demo.delivery 1 "ping") false]
    /\ filter is_reject
         (handle_with_trace Demo.runtime Demo.consumer faulty_run Demo.live
            (Demo.delivery 1 "ping")) = [])
   \/ (filter is_ack
         (handle_with_trace Demo.runtime Demo.consumer faulty_run Demo.live
            (Demo.delivery 1 "ping")) = []
       /\ filter is_reject
            (handle_with_trace Demo.runtime Demo.consumer faulty_run
               Demo.live (Demo.delivery 1 "ping"))
          = [EvReject (Demo.delivery 1 "ping") false]))
  /\ filter is_terminal
       (handle_with_trace Demo.runtime Demo.consumer faulty_run Demo.live
          (Demo.delivery 7 "crash")) = [].
Proof.
  split.
  - apply (proj1 (handle_one_terminal_call_if_handler_returns
                    Demo.runtime Demo.consumer faulty_run Demo.live
                    (Demo.delivery 1 "ping")) None).
    reflexivity.
  - apply (proj1 (proj2 (handle_one_terminal_call_if_handler_returns
                           Demo.runtime Demo.consumer faulty_run Demo.live
                           (Demo.delivery 7 "crash")))).
    intros r. discriminate.
Defined.



(** X17: [handle] calls [Get] at most once.  When it returns, it has called
    [Put] exactly when it has called [Run], once and with the parameter that
    [Run] received.  When [Run] panics or never returns, [Run] was called
    and [Put] is not: it is a statement after [Run], not a [defer]. *)
Theorem handle_puts_only_after_run_returns {Param : Type}
        (rt : Runtime Param) (t : taskConsumer Param)
        (run : Dispatcher (Param := Param)) (ctx : Context) (d : Delivery) :
  (length (filter is_get (handle_with_trace rt t run ctx d)) <= 1)%nat
  /\ ((exists r,
          handle_with_ending rt t run ctx d = Returns r
          /\ filter is_run (handle_with_trace rt t run ctx d) = []
          /\ filter is_put (handle_with_trace rt t run ctx d) = [])
      \/ (exists r p,
             handle_with_ending rt t run ctx d = Returns r
             /\ filter is_get (handle_with_trace rt t run ctx d) = [EvGet]
             /\ filter is_run (handle_with_trace rt t run ctx d) = [EvRun p]
             /\ filter is_put (handle_with_trace rt t run ctx d)
                = [EvPut p])
      \/ (exists p,
             (forall r, handle_with_ending rt t run ctx d <> Returns r)
             /\ filter is_get (handle_with_trace rt t run ctx d) = [EvGet]
             /\ filter is_run (handle_with_trace rt t run ctx d) = [EvRun p]
             /\ filter is_put (handle_with_trace rt t run ctx d) = [])).
Proof.
  unfold handle_with_ending, handle_with_trace.
  destruct (handle_with_cases rt t d) as [B|(m & p & H1 & H2 & H3)].
  - destruct (handle_with_before_dispatch rt t run ctx d B)
      as (pre & E & _ & R & P & G).
    rewrite E. cbn [fst snd]. rewrite !filter_app, R, P. cbn.
    split; [rewrite app_nil_r; exact G|]. left. eauto.
  - rewrite (handle_with_dispatch rt t run ctx d m p H1 H2 H3).
    destruct (run (With ctx "uuid" (UUID m)) p) as [[e|]|f|]; cbn.
    + split; [lia|]. right; left. eauto 8.
    + split; [lia|]. right; left. eauto 8.
    + split; [lia|]. right; right. exists p. repeat split; discriminate.
    + split; [lia|]. right; right. exists p. repeat split; discriminate.
Qed.
